(** * Parcel tracker: the record store and the tracking service

    A shallow embedding of [parcel.go] (the record store) and of the service
    half of [main.go] (the tracking service), with the theorems that relate
    them to the written specification.

    The Go code talks to one SQLite table through [database/sql]:
<<
      CREATE TABLE IF NOT EXISTS parcel (
          number INTEGER PRIMARY KEY, client INTEGER,
          status TEXT, address TEXT, created_at TEXT);
>>
    The table, the driver faults, the clock and the console are the state of
    a [World] that every operation threads through.  The six SQL statements
    of [parcel.go] are terms of a small statement language whose meaning on
    the table is defined once, in [Module sql].

    Modelling conventions.
    - Go's [int] is 64 bits wide (amd64/arm64); integers are [Z] and the one
      conversion of the code, [int(id)], is written out as a wrap-around.
    - [number INTEGER PRIMARY KEY] is SQLite's rowid: the table is kept in
      rowid order, a new row receives the largest rowid plus one, or 1 in an
      empty table, or an unused positive candidate once the largest possible
      rowid is taken.
    - A row holds what [Add] wrote: an integer and three texts, none NULL.
    - Text comparison is SQLite's BINARY collation and Go's [==]: equality
      of the byte strings. *)

From Stdlib Require Import ZArith List String Ascii Bool Lia DecimalString.
Import ListNotations.

Local Open Scope Z_scope.

(** ** Data model ([main.go], lines 11-25) *)

Definition ParcelStatusRegistered : string := "registered".
Definition ParcelStatusSent : string := "sent".
Definition ParcelStatusDelivered : string := "delivered".

Record Parcel : Type := mkParcel {
  Number : Z;
  Client : Z;
  Status : string;
  Address : string;
  CreatedAt : string
}.

(** Go's zero value, what [var p Parcel] declares. *)
Definition zeroParcel : Parcel := mkParcel 0 0 "" "" "".

Definition withNumber (p : Parcel) (n : Z) : Parcel :=
  mkParcel n (Client p) (Status p) (Address p) (CreatedAt p).

(** ** Errors

    [sql.ErrNoRows] is the only error the code can tell apart; every other
    error comes from the driver and carries its result code. *)

Inductive error : Type :=
| ErrNoRows
| ErrStorage (code : Z).

Definition SQLITE_FULL : Z := 13.

(** ** The world outside the program *)

(** A UTC wall-clock reading, to the second. *)
Record Time : Type := mkTime {
  year : Z; month : Z; day : Z; hour : Z; minute : Z; second : Z
}.

(** Lines written to the console, one constructor per format string. *)
Inductive notice : Type :=
| NoticeRegistered (number : Z) (address : string) (client : Z) (created_at : string)
| NoticeClientHeader (client : Z)
| NoticeParcel (number : Z) (address : string) (client : Z)
               (created_at : string) (status : string)
| NoticeBlank
| NoticeNewStatus (number : Z) (status : string).

(** [table] is the content of [parcel] in rowid order.  [faults] scripts the
    next driver calls: [Some code] makes the call fail with that result code
    and without effect, [None] lets it through, and past the end of the
    script nothing fails.  [rowids] scripts SQLite's random search for a
    free rowid, [clock] the successive readings of [time.Now()]. *)
Record World : Type := mkWorld {
  table : list Parcel;
  faults : list (option Z);
  rowids : list Z;
  clock : list Time;
  stdout : list notice
}.

(** ** State passing *)

Definition M (A : Type) : Type := World -> A * World.

Definition ret {A : Type} (a : A) : M A := fun w => (a, w).

Definition bind {A B : Type} (m : M A) (k : A -> M B) : M B :=
  fun w => let (a, w') := m w in k a w'.

Declare Scope go_scope.
Delimit Scope go_scope with go.
Notation "x <- m ;; k" := (bind m (fun x => k))
  (at level 100, m at next level, right associativity) : go_scope.
Notation "' pat <- m ;; k" := (bind m (fun x => match x with pat => k end))
  (at level 100, pat pattern, m at next level, right associativity) : go_scope.
Notation "m ;;; k" := (bind m (fun _ => k))
  (at level 100, right associativity) : go_scope.
Local Open Scope go_scope.

Definition setTable (t : list Parcel) : M unit :=
  fun w => (tt, mkWorld t (faults w) (rowids w) (clock w) (stdout w)).

Definition getTable : M (list Parcel) := fun w => (table w, w).

(** The outcome scripted for the next driver call. *)
Definition nextFault : M (option Z) :=
  fun w => match faults w with
           | [] => (None, w)
           | f :: fs => (f, mkWorld (table w) fs (rowids w) (clock w) (stdout w))
           end.

(** The outcome of SQLite's search for a free rowid. *)
Definition nextCandidate : M (option Z) :=
  fun w => match rowids w with
           | [] => (None, w)
           | c :: cs => (Some c, mkWorld (table w) (faults w) cs (clock w) (stdout w))
           end.

(** [time.Now().UTC()]; a clock that was never set reads Go's zero time. *)
Definition zeroTime : Time := mkTime 1 1 1 0 0 0.

Definition timeNow : M Time :=
  fun w => match clock w with
           | [] => (zeroTime, w)
           | t :: ts => (t, mkWorld (table w) (faults w) (rowids w) ts (stdout w))
           end.

(** [fmt.Printf] and [fmt.Println]. *)
Definition print (n : notice) : M unit :=
  fun w => (tt, mkWorld (table w) (faults w) (rowids w) (clock w) (stdout w ++ [n])).

(** ** [time.Format(time.RFC3339)] for a UTC reading

    Go prints each field with [appendInt]: a sign, then the decimal digits
    padded with zeros to the field's width (four for the year, two for the
    rest); a UTC reading ends in the zone letter Z. *)

Module time.

Definition digit (n : Z) : ascii := ascii_of_nat (48 + Z.to_nat n).

Definition decimal (u : Z) : string :=
  DecimalString.NilZero.string_of_uint (N.to_uint (Z.to_N u)).

Fixpoint zeros (n : nat) : string :=
  match n with
  | O => EmptyString
  | S n' => String "0" (zeros n')
  end.

Definition twoDigits (u : Z) : string :=
  String (digit (u / 10)) (String (digit (u mod 10)) EmptyString).

Definition appendInt (x : Z) (width : nat) : string :=
  let u := Z.abs x in
  let sign := if x <? 0 then "-"%string else EmptyString in
  let body :=
    if Nat.eqb width 2 && (u <? 100) then twoDigits u
    else if Nat.eqb width 4 && (u <? 10000) then
      (twoDigits (u / 100) ++ twoDigits (u mod 100))%string
    else
      let d := decimal u in
      (zeros (width - String.length d) ++ d)%string in
  (sign ++ body)%string.

Definition FormatRFC3339 (t : Time) : string :=
  (appendInt (year t) 4 ++ "-" ++ appendInt (month t) 2 ++ "-" ++
   appendInt (day t) 2 ++ "T" ++ appendInt (hour t) 2 ++ ":" ++
   appendInt (minute t) 2 ++ ":" ++ appendInt (second t) 2 ++ "Z")%string.

End time.

(** ** The statements of [parcel.go] and their meaning on the table *)

Module sql.

(** [WHERE] clauses: [number = ?], [client = ?], [status = ?] and [AND]. *)
Inductive where_ : Type :=
| NumberEq (n : Z)
| ClientEq (c : Z)
| StatusEq (s : string)
| And (a b : where_).

Fixpoint holds (c : where_) (r : Parcel) : bool :=
  match c with
  | NumberEq n => Number r =? n
  | ClientEq k => Client r =? k
  | StatusEq s => String.eqb (Status r) s
  | And a b => holds a r && holds b r
  end.

Inductive stmt : Type :=
| InsertParcel (client : Z) (status address created_at : string)
| UpdateStatus (status : string) (c : where_)
| UpdateAddress (address : string) (c : where_)
| DeleteFrom (c : where_).

(** The columns of [SELECT number, client, status, address, created_at]. *)
Definition columns : Type := (Z * Z * string * string * string)%type.

Definition project (r : Parcel) : columns :=
  (Number r, Client r, Status r, Address r, CreatedAt r).

Definition setStatus (s : string) (r : Parcel) : Parcel :=
  mkParcel (Number r) (Client r) s (Address r) (CreatedAt r).

Definition setAddress (a : string) (r : Parcel) : Parcel :=
  mkParcel (Number r) (Client r) (Status r) a (CreatedAt r).

Definition update (f : Parcel -> Parcel) (c : where_) (t : list Parcel) : list Parcel :=
  map (fun r => if holds c r then f r else r) t.

Definition delete (c : where_) (t : list Parcel) : list Parcel :=
  filter (fun r => negb (holds c r)) t.

Definition matching (c : where_) (t : list Parcel) : Z :=
  Z.of_nat (List.length (filter (holds c) t)).

(** *** Rowid assignment *)

Definition MAX_ROWID : Z := 9223372036854775807.

Fixpoint lastRowid (t : list Parcel) : option Z :=
  match t with
  | [] => None
  | r :: t' => match t' with
               | [] => Some (Number r)
               | _ :: _ => lastRowid t'
               end
  end.

Definition inUse (n : Z) (t : list Parcel) : bool :=
  existsb (fun r => Number r =? n) t.

Definition newRowid : M (option Z) :=
  t <- getTable ;;
  match lastRowid t with
  | None => ret (Some 1)
  | Some n =>
      if n <? MAX_ROWID then ret (Some (n + 1))
      else
        c <- nextCandidate ;;
        match c with
        | Some k =>
            if (1 <=? k) && (k <=? MAX_ROWID) && negb (inUse k t)
            then ret (Some k) else ret None
        | None => ret None
        end
  end.

(** The table is a b-tree on the rowid: a row goes to its place in order. *)
Fixpoint insertRow (r : Parcel) (t : list Parcel) : list Parcel :=
  match t with
  | [] => [r]
  | x :: t' => if Number r <? Number x then r :: t else x :: insertRow r t'
  end.

(** *** [db.Exec] and [sql.Result] *)

Record Result : Type := mkResult { insertId : Z; rowsAffected : Z }.

Definition Exec (s : stmt) : M (Result * option error) :=
  f <- nextFault ;;
  match f with
  | Some code => ret (mkResult 0 0, Some (ErrStorage code))
  | None =>
      t <- getTable ;;
      match s with
      | InsertParcel client status address created_at =>
          id <- newRowid ;;
          match id with
          | None => ret (mkResult 0 0, Some (ErrStorage SQLITE_FULL))
          | Some n =>
              setTable (insertRow (mkParcel n client status address created_at) t) ;;;
              ret (mkResult n 1, None)
          end
      | UpdateStatus status c =>
          setTable (update (setStatus status) c t) ;;;
          ret (mkResult 0 (matching c t), None)
      | UpdateAddress address c =>
          setTable (update (setAddress address) c t) ;;;
          ret (mkResult 0 (matching c t), None)
      | DeleteFrom c =>
          setTable (delete c t) ;;;
          ret (mkResult 0 (matching c t), None)
      end
  end.

Definition LastInsertId (res : Result) : M (Z * option error) :=
  f <- nextFault ;;
  match f with
  | Some code => ret (0, Some (ErrStorage code))
  | None => ret (insertId res, None)
  end.

(** *** [db.QueryRow] and [Row.Scan]

    [QueryRow] keeps the error of the query for [Scan] to report; [Scan]
    reports [sql.ErrNoRows] when the query selected nothing and otherwise
    hands over the first row. *)

Record Row : Type := mkRow { rowErr : option error; rowCols : option columns }.

Definition QueryRow (c : where_) : M Row :=
  f <- nextFault ;;
  match f with
  | Some code => ret (mkRow (Some (ErrStorage code)) None)
  | None =>
      t <- getTable ;;
      ret (mkRow None (option_map project (find (holds c) t)))
  end.

Definition RowScan (r : Row) : columns + error :=
  match rowErr r with
  | Some e => inr e
  | None => match rowCols r with
            | Some cols => inl cols
            | None => inr ErrNoRows
            end
  end.

(** *** [db.Query], [Rows.Next], [Rows.Scan], [Rows.Err]

    The cursor holds the rows the query selected, in rowid order.  Each
    [Next] steps the statement and may fail; [Err] then reports that
    failure.  The columns hold what [Add] wrote, which [Scan] always
    converts. *)

Record Rows : Type := mkRows { pending : list columns }.

Definition Query (c : where_) : M (Rows * option error) :=
  f <- nextFault ;;
  match f with
  | Some code => ret (mkRows [], Some (ErrStorage code))
  | None =>
      t <- getTable ;;
      ret (mkRows (map project (filter (holds c) t)), None)
  end.

Definition RowsScan (cols : columns) : columns + error := inl cols.

End sql.

(** [int(id)]: an [int64] converted to a 64-bit [int]. *)
Definition int_of_int64 (id : Z) : Z :=
  (id + 2 ^ 63) mod 2 ^ 64 - 2 ^ 63.

(** ** The record store ([parcel.go])

    A [ParcelStore] holds nothing but the database handle, which is the
    [World]'s table here; Go's [(value, error)] results are pairs whose
    second component is [None] for [nil]. *)

Module ParcelStore.

(** Lines 19-37. *)
Definition Add (p : Parcel) : M (Z * option error) :=
  '(res, err) <- sql.Exec (sql.InsertParcel (Client p) (Status p) (Address p) (CreatedAt p)) ;;
  match err with
  | Some e => ret (0, Some e)
  | None =>
      '(id, err) <- sql.LastInsertId res ;;
      match err with
      | Some e => ret (0, Some e)
      | None => ret (int_of_int64 id, None)
      end
  end.

(** Lines 40-56. *)
Definition Get (number : Z) : M (Parcel * option error) :=
  row <- sql.QueryRow (sql.NumberEq number) ;;
  let p := zeroParcel in
  match sql.RowScan row with
  | inr e => ret (p, Some e)
  | inl (n, c, s, a, t) => ret (mkParcel n c s a t, None)
  end.

(** Lines 72-84: the loop over [rows.Next()] and the check of [rows.Err()]
    that follows it. *)
Fixpoint scanRows (pending : list sql.columns) (parcels : list Parcel)
  : M (list Parcel * option error) :=
  f <- nextFault ;;
  match f with
  | Some code => ret ([], Some (ErrStorage code))
  | None =>
      match pending with
      | [] => ret (parcels, None)
      | cols :: rest =>
          match sql.RowsScan cols with
          | inr e => ret ([], Some e)
          | inl (n, c, s, a, t) => scanRows rest (parcels ++ [mkParcel n c s a t])
          end
      end
  end.

(** Lines 59-88. *)
Definition GetByClient (client : Z) : M (list Parcel * option error) :=
  '(rows, err) <- sql.Query (sql.ClientEq client) ;;
  match err with
  | Some e => ret ([], Some e)
  | None => scanRows (sql.pending rows) []
  end.

(** Lines 91-98. *)
Definition SetStatus (number : Z) (status : string) : M (option error) :=
  '(_, err) <- sql.Exec (sql.UpdateStatus status (sql.NumberEq number)) ;;
  ret err.

(** Lines 101-108. *)
Definition SetAddress (number : Z) (address : string) : M (option error) :=
  '(_, err) <- sql.Exec (sql.UpdateAddress address
                  (sql.And (sql.NumberEq number) (sql.StatusEq ParcelStatusRegistered))) ;;
  ret err.

(** Lines 111-118. *)
Definition Delete (number : Z) : M (option error) :=
  '(_, err) <- sql.Exec (sql.DeleteFrom
                  (sql.And (sql.NumberEq number) (sql.StatusEq ParcelStatusRegistered))) ;;
  ret err.

End ParcelStore.

(** ** The tracking service ([main.go], lines 27-120) *)

Module ParcelService.

(** Lines 38-62. *)
Definition Register (client : Z) (address : string) : M (Parcel * option error) :=
  now <- timeNow ;;
  let parcel := mkParcel 0 client ParcelStatusRegistered address (time.FormatRFC3339 now) in
  '(id, err) <- ParcelStore.Add parcel ;;
  match err with
  | Some e => ret (parcel, Some e)
  | None =>
      let parcel := withNumber parcel id in
      print (NoticeRegistered (Number parcel) (Address parcel) (Client parcel)
                              (CreatedAt parcel)) ;;;
      ret (parcel, None)
  end.

Fixpoint printParcels (parcels : list Parcel) : M unit :=
  match parcels with
  | [] => ret tt
  | parcel :: rest =>
      print (NoticeParcel (Number parcel) (Address parcel) (Client parcel)
                          (CreatedAt parcel) (Status parcel)) ;;;
      printParcels rest
  end.

(** Lines 65-82. *)
Definition PrintClientParcels (client : Z) : M (option error) :=
  '(parcels, err) <- ParcelStore.GetByClient client ;;
  match err with
  | Some e => ret (Some e)
  | None =>
      print (NoticeClientHeader client) ;;;
      printParcels parcels ;;;
      print NoticeBlank ;;;
      ret None
  end.

(** Lines 93-101, the [switch]: [inl] is the value [nextStatus] holds when
    control leaves the switch, [inr tt] the [return nil] of the third case.
    No case matching leaves [nextStatus] at its zero value. *)
Definition switchStatus (status : string) : string + unit :=
  if String.eqb status ParcelStatusRegistered then inl ParcelStatusSent
  else if String.eqb status ParcelStatusSent then inl ParcelStatusDelivered
  else if String.eqb status ParcelStatusDelivered then inr tt
  else inl EmptyString.

(** Lines 85-108. *)
Definition NextStatus (number : Z) : M (option error) :=
  '(parcel, err) <- ParcelStore.Get number ;;
  match err with
  | Some e => ret (Some e)
  | None =>
      match switchStatus (Status parcel) with
      | inr tt => ret None
      | inl nextStatus =>
          print (NoticeNewStatus number nextStatus) ;;;
          ParcelStore.SetStatus number nextStatus
      end
  end.

(** Lines 111-114. *)
Definition ChangeAddress (number : Z) (address : string) : M (option error) :=
  ParcelStore.SetAddress number address.

(** Lines 117-120. *)
Definition Delete (number : Z) : M (option error) :=
  ParcelStore.Delete number.

End ParcelService.

(** ** Worlds and runs *)

(** A database just created by [CREATE TABLE]. *)
Definition emptyWorld (fs : list (option Z)) (ks : list Z) (ts : list Time) : World :=
  mkWorld [] fs ks ts [].

(** The next [k] driver calls go through. *)
Definition quiet (k : nat) (w : World) : Prop :=
  Forall (fun f => f = None) (firstn k (faults w)).

(** The table obeys its primary key: rowids ascend strictly from above
    [lo] and none exceeds the largest rowid. *)
Fixpoint ascending (lo : Z) (t : list Parcel) : bool :=
  match t with
  | [] => true
  | r :: t' => (lo <? Number r) && (Number r <=? sql.MAX_ROWID) && ascending (Number r) t'
  end.

Definition wellFormed (w : World) : Prop := ascending 0 (table w) = true.

(** The stored parcel with a given number, if any. *)
Definition stored (n : Z) (w : World) : option Parcel :=
  find (fun r => Number r =? n) (table w).

(** [WHERE number = ? AND status = ?] with [ParcelStatusRegistered] bound to
    the second parameter: the guard of [SetAddress] and [Delete]. *)
Definition registeredNumber (n : Z) : sql.where_ :=
  sql.And (sql.NumberEq n) (sql.StatusEq ParcelStatusRegistered).

(** The world once the next scripted outcome is consumed. *)
Definition dropFault (w : World) : World :=
  mkWorld (table w) (tl (faults w)) (rowids w) (clock w) (stdout w).

Definition withTable (t : list Parcel) (w : World) : World :=
  mkWorld t (faults w) (rowids w) (clock w) (stdout w).

(** ** The service as a state machine *)

Inductive op : Type :=
| OpRegister (client : Z) (address : string)
| OpNextStatus (number : Z)
| OpChangeAddress (number : Z) (address : string)
| OpDelete (number : Z).

Definition exec (o : op) (w : World) : World :=
  match o with
  | OpRegister client address => snd (ParcelService.Register client address w)
  | OpNextStatus number => snd (ParcelService.NextStatus number w)
  | OpChangeAddress number address => snd (ParcelService.ChangeAddress number address w)
  | OpDelete number => snd (ParcelService.Delete number w)
  end.

Definition run (ops : list op) (w : World) : World := fold_left (fun w o => exec o w) ops w.

Definition validStatus (s : string) : Prop :=
  s = ParcelStatusRegistered \/ s = ParcelStatusSent \/ s = ParcelStatusDelivered.

(** One step of the chain, or none. *)
Definition advance (s s' : string) : Prop :=
  s' = s \/
  (s = ParcelStatusRegistered /\ s' = ParcelStatusSent) \/
  (s = ParcelStatusSent /\ s' = ParcelStatusDelivered).

(** The position of a status in the chain. *)
Definition rank (s : string) : Z :=
  if String.eqb s ParcelStatusRegistered then 0
  else if String.eqb s ParcelStatusSent then 1
  else if String.eqb s ParcelStatusDelivered then 2
  else -1.

(** ** Chronological order of clock readings *)

(** A reading whose year has four digits. *)
Definition civil (t : Time) : Prop :=
  0 <= year t <= 9999 /\ 1 <= month t <= 12 /\ 1 <= day t <= 31 /\
  0 <= hour t <= 23 /\ 0 <= minute t <= 59 /\ 0 <= second t <= 59.

(** [t1] is strictly earlier than [t2]. *)
Definition before (t1 t2 : Time) : Prop :=
  year t1 < year t2 \/ (year t1 = year t2 /\
  (month t1 < month t2 \/ (month t1 = month t2 /\
  (day t1 < day t2 \/ (day t1 = day t2 /\
  (hour t1 < hour t2 \/ (hour t1 = hour t2 /\
  (minute t1 < minute t2 \/ (minute t1 = minute t2 /\
   second t1 < second t2))))))))).

(** The world once the clock has been read. *)
Definition dropClock (w : World) : World :=
  mkWorld (table w) (faults w) (rowids w) (tl (clock w)) (stdout w).

(** What one service operation can do to the table, faults included. *)
Inductive tableStep (t : list Parcel) : list Parcel -> Prop :=
| StepNone : tableStep t t
| StepInsert (r : Parcel) :
    Status r = ParcelStatusRegistered ->
    1 <= Number r <= sql.MAX_ROWID -> sql.inUse (Number r) t = false ->
    tableStep t (sql.insertRow r t)
| StepStatus (n : Z) (r : Parcel) (s : string) :
    find (fun x => Number x =? n) t = Some r ->
    ParcelService.switchStatus (Status r) = inl s ->
    tableStep t (sql.update (sql.setStatus s) (sql.NumberEq n) t)
| StepAddress (n : Z) (a : string) :
    tableStep t (sql.update (sql.setAddress a) (registeredNumber n) t)
| StepDelete (n : Z) :
    tableStep t (sql.delete (registeredNumber n) t).

(** The invariant of the table: the primary key and the three statuses. *)
Definition invariant (t : list Parcel) : Prop :=
  ascending 0 t = true /\ forall r, In r t -> validStatus (Status r).

(** ** The demonstration ([main.go], lines 122-223)

    [sql.Open] makes no driver call; [db.Ping] and the [CREATE TABLE IF NOT
    EXISTS] statement are driver calls that leave the rows of an existing
    table alone.  Go's [main] returns nothing: on an error it prints the
    error and returns, which the result records here as [Some] of that
    error, and [None] stands for a run to the last line. *)

Definition Ping : M (option error) :=
  f <- nextFault ;;
  match f with
  | Some code => ret (Some (ErrStorage code))
  | None => ret None
  end.

Definition createTableIfNotExists : M (option error) :=
  f <- nextFault ;;
  match f with
  | Some code => ret (Some (ErrStorage code))
  | None => ret None
  end.

Definition demoAddress : string := "Псков, д. Пушкина, ул. Колотушкина, д. 5".
Definition demoNewAddress : string := "Саратов, д. Верхние Зори, ул. Козлова, д. 25".

(** [err = f(); if err != nil { fmt.Println(err); return }] followed by [k]. *)
Definition orReturn (m : M (option error)) (k : M (option error)) : M (option error) :=
  err <- m ;;
  match err with
  | Some e => ret (Some e)
  | None => k
  end.

Definition main : M (option error) :=
  orReturn Ping (
  orReturn createTableIfNotExists (
  let client := 1 in
  let address := demoAddress in
  '(p, err) <- ParcelService.Register client address ;;
  match err with
  | Some e => ret (Some e)
  | None =>
      let newAddress := demoNewAddress in
      orReturn (ParcelService.ChangeAddress (Number p) newAddress) (
      orReturn (ParcelService.NextStatus (Number p)) (
      orReturn (ParcelService.PrintClientParcels client) (
      orReturn (ParcelService.Delete (Number p)) (
      orReturn (ParcelService.PrintClientParcels client) (
      '(p, err) <- ParcelService.Register client address ;;
      match err with
      | Some e => ret (Some e)
      | None =>
          orReturn (ParcelService.Delete (Number p)) (
          orReturn (ParcelService.PrintClientParcels client) (
          ret None))
      end)))))
  end)).

(** The console line of a parcel in [PrintClientParcels]. *)
Definition parcelLine (p : Parcel) : notice :=
  NoticeParcel (Number p) (Address p) (Client p) (CreatedAt p) (Status p).

(** A driver that never fails from here on. *)
Definition reliable (w : World) : Prop := faults w = [].

(** Everything but the table and the fault script is as before. *)
Definition sameOutside (w w' : World) : Prop :=
  rowids w' = rowids w /\ clock w' = clock w /\ stdout w' = stdout w.

(** [w'] is [w] with the table [t], the lines [out] added to the console
    and the clock at [ck], under a driver that keeps working. *)
Definition evolves (w w' : World) (t : list Parcel) (out : list notice)
           (ck : list Time) : Prop :=
  reliable w' /\ table w' = t /\ stdout w' = stdout w ++ out /\ clock w' = ck.

(** The rowid an insertion takes while the largest rowid is free. *)
Definition nextRowid (t : list Parcel) : Z :=
  match sql.lastRowid t with Some n => n + 1 | None => 1 end.

(** The lines [PrintClientParcels] writes for a table. *)
Definition clientBlock (client : Z) (t : list Parcel) : list notice :=
  [NoticeClientHeader client]
  ++ map parcelLine (filter (fun r => Client r =? client) t)
  ++ [NoticeBlank].

(** The rows of [old] are all in the table of [w], which obeys its primary
    key. *)
Definition keepsRows (old : list Parcel) (w : World) : Prop :=
  wellFormed w /\ forall r, In r old -> In r (table w).

(** A computation that maintains [I], whatever it returns. *)
Definition preserves {A : Type} (I : World -> Prop) (m : M A) : Prop :=
  forall w, I w -> I (snd (m w)).

(** The reading of "fresh" that the specification's data model gives: a
    number handed out by [Add] is not handed out again, even after the
    parcel that bore it is deleted. *)
Definition identityNeverReused : Prop :=
  forall (w w1 w2 w3 : World) (p q : Parcel) (id id' : Z),
    wellFormed w ->
    ParcelStore.Add p w = ((id, None), w1) ->
    ParcelStore.Delete id w1 = (None, w2) ->
    ParcelStore.Add q w2 = ((id', None), w3) ->
    id' <> id.

(** * Properties *)

(** ** The 64-bit conversion *)

Lemma int_of_int64_id (z : Z) :
  - 2 ^ 63 <= z < 2 ^ 63 -> int_of_int64 z = z.
Proof.
  intros Hz. unfold int_of_int64.
  rewrite Z.mod_small by lia. lia.
Qed.

(** ** Tables in rowid order *)

Section Tables.

Implicit Types (t : list Parcel) (r x : Parcel) (n lo : Z).

Lemma ascending_weaken lo lo' t :
  lo' <= lo -> ascending lo t = true -> ascending lo' t = true.
Proof.
  destruct t as [|x t]; simpl; [reflexivity|].
  intros Hlo H. apply andb_true_iff in H as [H Ht]. apply andb_true_iff in H as [H1 H2].
  rewrite Ht, H2. apply Z.ltb_lt in H1.
  replace (lo' <? Number x) with true by (symmetry; apply Z.ltb_lt; lia).
  reflexivity.
Qed.

Lemma ascending_cons lo x t :
  ascending lo (x :: t) = true <->
  lo < Number x /\ Number x <= sql.MAX_ROWID /\ ascending (Number x) t = true.
Proof.
  simpl. rewrite !andb_true_iff, Z.ltb_lt, Z.leb_le. tauto.
Qed.

Lemma ascending_bounds lo t :
  ascending lo t = true -> forall r, In r t -> lo < Number r <= sql.MAX_ROWID.
Proof.
  revert lo. induction t as [|x t IH]; intros lo H r Hin; [contradiction|].
  apply ascending_cons in H as (H1 & H2 & H3).
  destruct Hin as [->|Hin]; [lia|].
  specialize (IH _ H3 _ Hin). lia.
Qed.

Lemma ascending_not_inUse lo t n :
  ascending lo t = true -> n <= lo -> sql.inUse n t = false.
Proof.
  intros H Hn. unfold sql.inUse.
  destruct (existsb _ t) eqn:E; [|reflexivity].
  apply existsb_exists in E as (r & Hin & Hr). apply Z.eqb_eq in Hr.
  apply (ascending_bounds _ _ H) in Hin. lia.
Qed.

Lemma lastRowid_none t : sql.lastRowid t = None -> t = [].
Proof.
  induction t as [|x [|y t] IH]; simpl; intros H; try reflexivity; try discriminate.
  specialize (IH H). discriminate.
Qed.

Lemma ascending_lastRowid lo t n :
  ascending lo t = true -> sql.lastRowid t = Some n ->
  lo < n <= sql.MAX_ROWID /\ forall r, In r t -> Number r <= n.
Proof.
  revert lo. induction t as [|x t IH]; intros lo H Hl; [discriminate|].
  apply ascending_cons in H as (H1 & H2 & H3).
  destruct t as [|y t].
  - injection Hl as <-. split; [lia|]. intros r [->|[]]. lia.
  - change (sql.lastRowid (y :: t) = Some n) in Hl.
    destruct (IH _ H3 Hl) as [Hn Hall]. split; [lia|].
    intros r [->|Hin]; [lia|]. now apply Hall.
Qed.

Lemma inUse_false_iff n t :
  sql.inUse n t = false <-> forall r, In r t -> Number r <> n.
Proof.
  unfold sql.inUse. split.
  - intros H r Hin Hr.
    assert (existsb (fun r => Number r =? n) t = true); [|congruence].
    apply existsb_exists. exists r. split; [assumption|]. now apply Z.eqb_eq.
  - intros H. destruct (existsb _ t) eqn:E; [|reflexivity].
    apply existsb_exists in E as (r & Hin & Hr). apply Z.eqb_eq in Hr.
    now elim (H r Hin).
Qed.

Lemma find_number_none n t :
  find (fun r => Number r =? n) t = None <-> sql.inUse n t = false.
Proof.
  unfold sql.inUse. induction t as [|x t IH]; simpl; [tauto|].
  destruct (Number x =? n); simpl; [split; discriminate|exact IH].
Qed.

Lemma find_number_some n t r :
  find (fun r => Number r =? n) t = Some r -> In r t /\ Number r = n.
Proof.
  intros H. apply find_some in H as [Hin Hn]. apply Z.eqb_eq in Hn. tauto.
Qed.

(** Under the primary key a row is the one found under its number. *)
Lemma ascending_find lo t r :
  ascending lo t = true -> In r t -> find (fun x => Number x =? Number r) t = Some r.
Proof.
  revert lo. induction t as [|x t IH]; intros lo H Hin; [contradiction|].
  apply ascending_cons in H as (H1 & H2 & H3). simpl.
  destruct Hin as [->|Hin].
  - now rewrite Z.eqb_refl.
  - pose proof (ascending_bounds _ _ H3 _ Hin) as Hb.
    replace (Number x =? Number r) with false by (symmetry; apply Z.eqb_neq; lia).
    eauto.
Qed.

Lemma ascending_NoDup lo t :
  ascending lo t = true -> NoDup (map Number t).
Proof.
  revert lo. induction t as [|x t IH]; intros lo H; simpl; [constructor|].
  apply ascending_cons in H as (H1 & H2 & H3). constructor; [|eauto].
  intros Hin. apply in_map_iff in Hin as (r & Hr & Hin).
  pose proof (ascending_bounds _ _ H3 _ Hin). lia.
Qed.

(** *** Insertion *)

Lemma In_insertRow r t x : In x (sql.insertRow r t) <-> x = r \/ In x t.
Proof.
  induction t as [|y t IH]; simpl.
  - intuition.
  - destruct (Number r <? Number y); simpl; rewrite ?IH; intuition.
Qed.

Lemma find_insertRow_same r t :
  sql.inUse (Number r) t = false ->
  find (fun x => Number x =? Number r) (sql.insertRow r t) = Some r.
Proof.
  induction t as [|y t IH]; simpl; intros H.
  - now rewrite Z.eqb_refl.
  - apply orb_false_iff in H as [Hy Ht].
    destruct (Number r <? Number y); simpl.
    + now rewrite Z.eqb_refl.
    + rewrite Hy. auto.
Qed.

Lemma find_insertRow_other r t n :
  n <> Number r ->
  find (fun x => Number x =? n) (sql.insertRow r t) = find (fun x => Number x =? n) t.
Proof.
  intros Hn. induction t as [|y t IH]; simpl.
  - replace (Number r =? n) with false by (symmetry; apply Z.eqb_neq; lia). reflexivity.
  - destruct (Number r <? Number y); simpl.
    + replace (Number r =? n) with false by (symmetry; apply Z.eqb_neq; lia). reflexivity.
    + rewrite IH. reflexivity.
Qed.

Lemma ascending_insertRow lo r t :
  ascending lo t = true -> lo < Number r <= sql.MAX_ROWID ->
  sql.inUse (Number r) t = false ->
  ascending lo (sql.insertRow r t) = true.
Proof.
  revert lo. induction t as [|y t IH]; intros lo H Hr Hfree.
  - simpl. apply andb_true_iff. split; [|reflexivity].
    apply andb_true_iff. split; [apply Z.ltb_lt|apply Z.leb_le]; lia.
  - pose proof H as H'. apply ascending_cons in H as (H1 & H2 & H3).
    simpl in Hfree. apply orb_false_iff in Hfree as [Hy Ht]. apply Z.eqb_neq in Hy.
    simpl. destruct (Number r <? Number y) eqn:E.
    + apply Z.ltb_lt in E. apply ascending_cons. repeat split; try lia.
      apply ascending_cons. repeat split; try lia. assumption.
    + apply Z.ltb_ge in E. apply ascending_cons. repeat split; try lia.
      apply IH; [assumption|lia|assumption].
Qed.

(** Past the last rowid, insertion appends. *)
Lemma insertRow_append r t :
  (forall x, In x t -> Number x < Number r) -> sql.insertRow r t = t ++ [r].
Proof.
  induction t as [|y t IH]; intros H; simpl; [reflexivity|].
  replace (Number r <? Number y) with false
    by (symmetry; apply Z.ltb_ge; specialize (H y (or_introl eq_refl)); lia).
  rewrite IH; [reflexivity|]. intros x Hx. apply H. now right.
Qed.

(** *** Update and deletion *)

Lemma ascending_update lo f c t :
  (forall r, Number (f r) = Number r) ->
  ascending lo t = true -> ascending lo (sql.update f c t) = true.
Proof.
  intros Hf. revert lo. induction t as [|y t IH]; intros lo H; [reflexivity|].
  apply ascending_cons in H as (H1 & H2 & H3).
  unfold sql.update in *. simpl.
  assert (E : Number (if sql.holds c y then f y else y) = Number y)
    by (destruct (sql.holds c y); auto).
  apply ascending_cons. rewrite E. auto.
Qed.

Lemma ascending_delete lo c t :
  ascending lo t = true -> ascending lo (sql.delete c t) = true.
Proof.
  revert lo. induction t as [|y t IH]; intros lo H; [reflexivity|].
  apply ascending_cons in H as (H1 & H2 & H3).
  unfold sql.delete in *. simpl. destruct (negb (sql.holds c y)).
  - apply ascending_cons. auto.
  - apply IH. apply ascending_weaken with (lo := Number y); [lia|assumption].
Qed.

Lemma find_update n f c t :
  (forall r, Number (f r) = Number r) ->
  find (fun x => Number x =? n) (sql.update f c t) =
  option_map (fun r => if sql.holds c r then f r else r)
             (find (fun x => Number x =? n) t).
Proof.
  intros Hf. unfold sql.update. induction t as [|y t IH]; simpl; [reflexivity|].
  assert (E : Number (if sql.holds c y then f y else y) = Number y)
    by (destruct (sql.holds c y); auto).
  rewrite E. destruct (Number y =? n); [reflexivity|exact IH].
Qed.

Lemma update_id f c t :
  (forall r, In r t -> sql.holds c r = false) -> sql.update f c t = t.
Proof.
  unfold sql.update. induction t as [|y t IH]; intros H; simpl; [reflexivity|].
  rewrite (H y (or_introl eq_refl)), IH; [reflexivity|].
  intros r Hr. apply H. now right.
Qed.

Lemma delete_id c t :
  (forall r, In r t -> sql.holds c r = false) -> sql.delete c t = t.
Proof.
  unfold sql.delete. induction t as [|y t IH]; intros H; simpl; [reflexivity|].
  rewrite (H y (or_introl eq_refl)). simpl. rewrite IH; [reflexivity|].
  intros r Hr. apply H. now right.
Qed.

Lemma find_delete_other n c t :
  (forall r, sql.holds c r = true -> Number r <> n) ->
  find (fun x => Number x =? n) (sql.delete c t) = find (fun x => Number x =? n) t.
Proof.
  intros Hc. unfold sql.delete. induction t as [|y t IH]; simpl; [reflexivity|].
  destruct (sql.holds c y) eqn:E; simpl.
  - apply Hc in E. apply Z.eqb_neq in E. now rewrite E.
  - destruct (Number y =? n); [reflexivity|exact IH].
Qed.

Lemma matching_zero c t :
  (forall r, In r t -> sql.holds c r = false) -> sql.matching c t = 0.
Proof.
  unfold sql.matching. induction t as [|y t IH]; intros H; simpl; [reflexivity|].
  rewrite (H y (or_introl eq_refl)). apply IH. intros r Hr. apply H. now right.
Qed.

End Tables.

(** ** Driver calls, one outcome at a time *)

Section Driver.

Implicit Types (w : World) (n : Z).

Lemma nextFault_eq w : nextFault w = (hd None (faults w), dropFault w).
Proof. destruct w as [t [|f fs] ks ts out]; reflexivity. Qed.

Lemma quiet_S k w :
  quiet (S k) w <-> hd None (faults w) = None /\ quiet k (dropFault w).
Proof.
  unfold quiet. destruct w as [t [|f fs] ks ts out]; simpl.
  - split; [intros _; split; [reflexivity|]|intros _; constructor].
    destruct k; constructor.
  - split.
    + intros H. inversion H; subst. split; [reflexivity|assumption].
    + intros [-> H]. constructor; [reflexivity|assumption].
Qed.

Lemma quiet_withTable k t w : quiet k (withTable t w) <-> quiet k w.
Proof. reflexivity. Qed.

Lemma quiet_le k k' w : (k' <= k)%nat -> quiet k w -> quiet k' w.
Proof.
  unfold quiet. intros Hk. generalize (faults w) as fs. revert k Hk.
  induction k' as [|k' IH]; intros k Hk fs H; [constructor|].
  destruct k as [|k]; [lia|]. destruct fs as [|f fs]; [constructor|].
  simpl in *. inversion H; subst. constructor; [reflexivity|].
  apply IH with (k := k); [lia|assumption].
Qed.

Lemma Exec_fault s w code :
  hd None (faults w) = Some code ->
  sql.Exec s w = ((sql.mkResult 0 0, Some (ErrStorage code)), dropFault w).
Proof.
  intros H. unfold sql.Exec, bind. rewrite nextFault_eq, H. reflexivity.
Qed.

Lemma Exec_update_status s c w :
  hd None (faults w) = None ->
  sql.Exec (sql.UpdateStatus s c) w =
  ((sql.mkResult 0 (sql.matching c (table w)), None),
   withTable (sql.update (sql.setStatus s) c (table w)) (dropFault w)).
Proof.
  intros H. unfold sql.Exec, bind. rewrite nextFault_eq, H. reflexivity.
Qed.

Lemma Exec_update_address a c w :
  hd None (faults w) = None ->
  sql.Exec (sql.UpdateAddress a c) w =
  ((sql.mkResult 0 (sql.matching c (table w)), None),
   withTable (sql.update (sql.setAddress a) c (table w)) (dropFault w)).
Proof.
  intros H. unfold sql.Exec, bind. rewrite nextFault_eq, H. reflexivity.
Qed.

Lemma Exec_delete c w :
  hd None (faults w) = None ->
  sql.Exec (sql.DeleteFrom c) w =
  ((sql.mkResult 0 (sql.matching c (table w)), None),
   withTable (sql.delete c (table w)) (dropFault w)).
Proof.
  intros H. unfold sql.Exec, bind. rewrite nextFault_eq, H. reflexivity.
Qed.

(** An insertion either fails and leaves the table alone, or adds one row
    under a rowid that was free and lies in the rowid range. *)
Lemma Exec_insert c s a ct w res err w' :
  wellFormed w ->
  sql.Exec (sql.InsertParcel c s a ct) w = ((res, err), w') ->
  (exists code, err = Some (ErrStorage code) /\ table w' = table w /\
                res = sql.mkResult 0 0) \/
  (exists id, err = None /\ res = sql.mkResult id 1 /\
              1 <= id <= sql.MAX_ROWID /\ sql.inUse id (table w) = false /\
              table w' = sql.insertRow (mkParcel id c s a ct) (table w)).
Proof.
  intros Hwf. unfold sql.Exec, bind. rewrite nextFault_eq.
  destruct (hd None (faults w)) as [code|].
  - intros H. injection H as <- <- <-. left. exists code. auto.
  - unfold getTable, sql.newRowid, bind, getTable. cbn [table dropFault].
    destruct (sql.lastRowid (table w)) as [n|] eqn:El.
    + destruct (ascending_lastRowid _ _ _ Hwf El) as [Hn Hall].
      destruct (n <? sql.MAX_ROWID) eqn:En.
      * apply Z.ltb_lt in En. cbn; unfold ret. intros H. injection H as <- <- <-.
        right. exists (n + 1). repeat split; try lia.
        apply inUse_false_iff. intros r Hr. specialize (Hall r Hr). lia.
      * unfold nextCandidate. cbn [rowids dropFault].
        destruct (rowids w) as [|k ks].
        -- cbn; unfold ret. intros H. injection H as <- <- <-. left. exists SQLITE_FULL. auto.
        -- destruct ((1 <=? k) && (k <=? sql.MAX_ROWID) && negb (sql.inUse k (table w))) eqn:Ek.
           ++ cbn; unfold ret. intros H. injection H as <- <- <-.
              apply andb_true_iff in Ek as [Ek Ek3]. apply andb_true_iff in Ek as [Ek1 Ek2].
              apply Z.leb_le in Ek1, Ek2. apply negb_true_iff in Ek3.
              right. exists k. repeat split; auto.
           ++ cbn; unfold ret. intros H. injection H as <- <- <-. left. exists SQLITE_FULL. auto.
    + apply lastRowid_none in El. cbn; unfold ret. intros H. injection H as <- <- <-.
      right. exists 1. rewrite El. repeat split; try reflexivity.
      unfold sql.MAX_ROWID. lia.
Qed.

(** While the largest rowid is free, a quiet insertion takes the next one. *)
Lemma Exec_insert_next c s a ct w :
  hd None (faults w) = None ->
  sql.lastRowid (table w) <> Some sql.MAX_ROWID ->
  wellFormed w ->
  let id := match sql.lastRowid (table w) with Some n => n + 1 | None => 1 end in
  sql.Exec (sql.InsertParcel c s a ct) w =
  ((sql.mkResult id 1, None),
   withTable (table w ++ [mkParcel id c s a ct]) (dropFault w)).
Proof.
  intros Hq Hmax Hwf. unfold sql.Exec, bind. rewrite nextFault_eq, Hq.
  unfold getTable, sql.newRowid, bind, getTable. cbn [table dropFault].
  destruct (sql.lastRowid (table w)) as [n|] eqn:El.
  - destruct (ascending_lastRowid _ _ _ Hwf El) as [Hn Hall].
    assert (n <> sql.MAX_ROWID) by congruence.
    replace (n <? sql.MAX_ROWID) with true by (symmetry; apply Z.ltb_lt; lia).
    cbn. unfold withTable, dropFault. cbn.
    rewrite insertRow_append; [reflexivity|].
    intros x Hx. specialize (Hall x Hx). cbn. lia.
  - apply lastRowid_none in El. rewrite El. reflexivity.
Qed.

Lemma LastInsertId_eq res w :
  sql.LastInsertId res w =
  (match hd None (faults w) with
   | Some code => (0, Some (ErrStorage code))
   | None => (sql.insertId res, None)
   end, dropFault w).
Proof.
  unfold sql.LastInsertId, bind. rewrite nextFault_eq.
  destruct (hd None (faults w)); reflexivity.
Qed.

Lemma QueryRow_eq c w :
  sql.QueryRow c w =
  (match hd None (faults w) with
   | Some code => sql.mkRow (Some (ErrStorage code)) None
   | None => sql.mkRow None (option_map sql.project (find (sql.holds c) (table w)))
   end, dropFault w).
Proof.
  unfold sql.QueryRow, bind. rewrite nextFault_eq.
  destruct (hd None (faults w)); reflexivity.
Qed.

End Driver.

(** ** The store's operations, outcome by outcome *)

Section Store.

Implicit Types (w : World) (n : Z) (p r : Parcel).

Lemma Get_eq n w :
  ParcelStore.Get n w =
  (match hd None (faults w) with
   | Some code => (zeroParcel, Some (ErrStorage code))
   | None => match stored n w with
             | Some r => (r, None)
             | None => (zeroParcel, Some ErrNoRows)
             end
   end, dropFault w).
Proof.
  unfold ParcelStore.Get, bind. rewrite QueryRow_eq.
  destruct (hd None (faults w)); [reflexivity|].
  unfold stored, sql.RowScan. cbn.
  destruct (find _ (table w)) as [[]|]; reflexivity.
Qed.

Lemma SetStatus_eq n s w :
  ParcelStore.SetStatus n s w =
  match hd None (faults w) with
  | Some code => (Some (ErrStorage code), dropFault w)
  | None => (None, withTable (sql.update (sql.setStatus s) (sql.NumberEq n) (table w))
                             (dropFault w))
  end.
Proof.
  unfold ParcelStore.SetStatus, bind.
  destruct (hd None (faults w)) eqn:E.
  - now rewrite (Exec_fault _ _ _ E).
  - now rewrite (Exec_update_status _ _ _ E).
Qed.

Lemma SetAddress_eq n a w :
  ParcelStore.SetAddress n a w =
  match hd None (faults w) with
  | Some code => (Some (ErrStorage code), dropFault w)
  | None => (None, withTable (sql.update (sql.setAddress a) (registeredNumber n) (table w))
                             (dropFault w))
  end.
Proof.
  unfold ParcelStore.SetAddress, bind.
  destruct (hd None (faults w)) eqn:E.
  - now rewrite (Exec_fault _ _ _ E).
  - now rewrite (Exec_update_address _ _ _ E).
Qed.

Lemma Delete_eq n w :
  ParcelStore.Delete n w =
  match hd None (faults w) with
  | Some code => (Some (ErrStorage code), dropFault w)
  | None => (None, withTable (sql.delete (registeredNumber n) (table w)) (dropFault w))
  end.
Proof.
  unfold ParcelStore.Delete, bind.
  destruct (hd None (faults w)) eqn:E.
  - now rewrite (Exec_fault _ _ _ E).
  - now rewrite (Exec_delete _ _ E).
Qed.

(** The three ways [Add] can end: the write fails, the identity cannot be
    retrieved after the write, or both go through. *)
Lemma Add_cases p w id err w' :
  wellFormed w ->
  ParcelStore.Add p w = ((id, err), w') ->
  (exists code, err = Some (ErrStorage code) /\ id = 0 /\ table w' = table w) \/
  (exists code k, err = Some (ErrStorage code) /\ id = 0 /\
                  1 <= k <= sql.MAX_ROWID /\ sql.inUse k (table w) = false /\
                  table w' = sql.insertRow (withNumber p k) (table w)) \/
  (err = None /\ 1 <= id <= sql.MAX_ROWID /\ sql.inUse id (table w) = false /\
   table w' = sql.insertRow (withNumber p id) (table w)).
Proof.
  intros Hwf. unfold ParcelStore.Add, bind.
  destruct (sql.Exec _ w) as [[res e] w1] eqn:E.
  apply (Exec_insert _ _ _ _ _ _ _ _ Hwf) in E
    as [(code & -> & Ht & ->)|(k & -> & -> & Hk & Hfree & Ht)].
  - unfold ret. intros H. injection H as <- <- <-. left. eauto.
  - rewrite LastInsertId_eq. cbn [sql.insertId].
    destruct (hd None (faults w1)) as [code|]; unfold ret;
      intros H; injection H as <- <- <-.
    + right. left. exists code, k. auto.
    + right. right. rewrite int_of_int64_id by (unfold sql.MAX_ROWID in Hk; lia). auto.
Qed.

Lemma wellFormed_insertRow w t r :
  wellFormed w -> 1 <= Number r <= sql.MAX_ROWID -> sql.inUse (Number r) (table w) = false ->
  t = sql.insertRow r (table w) -> ascending 0 t = true.
Proof.
  intros Hwf Hr Hfree ->. apply ascending_insertRow; [assumption|lia|assumption].
Qed.

End Store.

(** ** Round trip through the store *)



(** ** Identity assignment *)

Lemma Add_next (p : Parcel) (w : World) :
  wellFormed w -> quiet 2 w ->
  sql.lastRowid (table w) <> Some sql.MAX_ROWID ->
  let id := match sql.lastRowid (table w) with Some n => n + 1 | None => 1 end in
  ParcelStore.Add p w =
  ((id, None), withTable (table w ++ [withNumber p id]) (dropFault (dropFault w))).
Proof.
  intros Hwf Hq Hmax id.
  apply quiet_S in Hq as [Hq1 Hq]. apply quiet_S in Hq as [Hq2 _].
  unfold ParcelStore.Add, bind.
  rewrite Exec_insert_next by assumption. fold id.
  rewrite LastInsertId_eq. cbn [faults withTable sql.insertId].
  rewrite Hq2. unfold ret.
  assert (Hid : 1 <= id <= sql.MAX_ROWID).
  { subst id. destruct (sql.lastRowid (table w)) as [n|] eqn:El.
    - destruct (ascending_lastRowid _ _ _ Hwf El) as [Hn _].
      assert (n <> sql.MAX_ROWID) by congruence. lia.
    - unfold sql.MAX_ROWID. lia. }
  rewrite int_of_int64_id by (unfold sql.MAX_ROWID in Hid; lia).
  reflexivity.
Qed.

(** C9, as amended.  On a table that obeys its primary key, an [Add] that
    returns no error has assigned an identity that no stored row bears at
    that moment (it may be the identity of a parcel deleted earlier), has
    stored the parcel's client, status, address and creation time under it,
    has left every other row as it was and keeps the numbers of the table
    distinct; it returns that identity.  While the largest rowid is free
    and the driver does not fail, [Add] does return without error.  When the
    write fails, or when the write goes through and the retrieval of the
    identity fails, [Add] returns identity 0 and a storage error, and every
    error of [Add] is a storage error returned with identity 0. *)
Theorem Add_assigns_identity (w : World) (p : Parcel) :
  wellFormed w ->
  (forall id w',
      ParcelStore.Add p w = ((id, None), w') ->
      (forall r, In r (table w) -> Number r <> id) /\
      stored id w = None /\
      stored id w' = Some (mkParcel id (Client p) (Status p) (Address p) (CreatedAt p)) /\
      (forall n, n <> id -> stored n w' = stored n w) /\
      wellFormed w' /\ NoDup (map Number (table w'))) /\
  (quiet 2 w -> sql.lastRowid (table w) <> Some sql.MAX_ROWID ->
   exists id w', ParcelStore.Add p w = ((id, None), w')) /\
  (forall id e w',
      ParcelStore.Add p w = ((id, Some e), w') ->
      id = 0 /\ exists code, e = ErrStorage code) /\
  (forall code,
      hd None (faults w) = Some code ->
      exists w', ParcelStore.Add p w = ((0, Some (ErrStorage code)), w') /\
                 table w' = table w) /\
  (forall code,
      hd None (faults w) = None -> hd None (tl (faults w)) = Some code ->
      sql.lastRowid (table w) <> Some sql.MAX_ROWID ->
      exists w', ParcelStore.Add p w = ((0, Some (ErrStorage code)), w')).
Proof.
  intros Hwf. split; [|split; [|split; [|split]]].
  - intros id w' H. apply Add_cases in H
      as [(code & He & _)|[(code & k & He & _)|(_ & Hid & Hfree & Ht)]];
      [discriminate|discriminate| |assumption].
    pose proof (wellFormed_insertRow w (table w') (withNumber p id) Hwf Hid Hfree Ht) as Hwf'.
    split; [now apply inUse_false_iff|].
    split; [now apply find_number_none|]. split; [|split; [|split]].
    + unfold stored. rewrite Ht. change id with (Number (withNumber p id)) at 1.
      now apply find_insertRow_same.
    + intros n Hn. unfold stored. rewrite Ht. now apply find_insertRow_other.
    + exact Hwf'.
    + now apply ascending_NoDup with (lo := 0).
  - intros Hq Hmax. rewrite Add_next by assumption. eauto.
  - intros id e w' H. apply Add_cases in H
      as [(code & He & Hid & _)|[(code & k & He & Hid & _)|(He & _)]];
      [| |discriminate|assumption];
      injection He as ->; eauto.
  - intros code Hf. unfold ParcelStore.Add, bind.
    rewrite (Exec_fault _ _ _ Hf). unfold ret. eauto.
  - intros code Hf1 Hf2 Hmax. unfold ParcelStore.Add, bind.
    rewrite Exec_insert_next by assumption.
    rewrite LastInsertId_eq. cbn [faults withTable dropFault].
    rewrite Hf2. unfold ret. eauto.
Qed.

Lemma Add_assigns_identity_witness :
  wellFormed (mkWorld [mkParcel 1 7 "sent" "Omsk" "2023";
                       mkParcel 3 8 "registered" "Tver" "2023"] [] [] [] []) /\
  (forall r, In r [mkParcel 1 7 "sent" "Omsk" "2023";
                   mkParcel 3 8 "registered" "Tver" "2023"] -> Number r <> 4) /\
  stored 4 (mkWorld [mkParcel 1 7 "sent" "Omsk" "2023";
                     mkParcel 3 8 "registered" "Tver" "2023";
                     mkParcel 4 7 "registered" "Pskov" "2024"] [] [] [] [])
  = Some (mkParcel 4 7 "registered" "Pskov" "2024").
Proof.
  split; [reflexivity|].
  destruct (Add_assigns_identity
              (mkWorld [mkParcel 1 7 "sent" "Omsk" "2023";
                        mkParcel 3 8 "registered" "Tver" "2023"] [] [] [] [])
              (mkParcel 0 7 "registered" "Pskov" "2024") eq_refl) as [H _].
  destruct (H 4 (mkWorld [mkParcel 1 7 "sent" "Omsk" "2023";
                          mkParcel 3 8 "registered" "Tver" "2023";
                          mkParcel 4 7 "registered" "Pskov" "2024"] [] [] [] [])
              eq_refl) as (Hfresh & _ & Hstored & _).
  split; [exact Hfresh|exact Hstored].
Defined.

(** C9, as the specification words it: the number is assigned once and
    never reused.  That fails on the code.  The table is created without
    AUTOINCREMENT, so the rowid of a deleted parcel is free again: on an
    empty table [Add] returns 1, [Delete] of 1 empties the table, and the
    next [Add] returns 1 once more, for another parcel. *)
Lemma Add_identity_reused : ~ identityNeverReused.
Proof.
  intros H.
  apply (H (emptyWorld [] [] [])
           (mkWorld [mkParcel 1 7 "registered" "Pskov" "2024"] [] [] [] [])
           (emptyWorld [] [] [])
           (mkWorld [mkParcel 1 8 "registered" "Omsk" "2025"] [] [] [] [])
           (mkParcel 0 7 "registered" "Pskov" "2024")
           (mkParcel 0 8 "registered" "Omsk" "2025") 1 1);
    reflexivity.
Qed.

(** ** The guarded and the unguarded writes *)

Section Writes.

Implicit Types (w : World) (n m : Z) (r x : Parcel).

Lemma stored_unique w n r x :
  wellFormed w -> stored n w = Some r -> In x (table w) -> Number x = n -> x = r.
Proof.
  intros Hwf Hs Hin Hn. pose proof (ascending_find _ _ _ Hwf Hin) as Hf.
  rewrite Hn in Hf. unfold stored in Hs. congruence.
Qed.

Lemma holds_registeredNumber n x :
  sql.holds (registeredNumber n) x =
  (Number x =? n) && String.eqb (Status x) ParcelStatusRegistered.
Proof. reflexivity. Qed.

(** The guard selects nothing when the row under [n] is not registered. *)
Lemma guard_rejects w n r :
  wellFormed w -> stored n w = Some r -> Status r <> ParcelStatusRegistered ->
  forall x, In x (table w) -> sql.holds (registeredNumber n) x = false.
Proof.
  intros Hwf Hs Hst x Hin. rewrite holds_registeredNumber.
  destruct (Number x =? n) eqn:E; [|reflexivity].
  apply Z.eqb_eq in E. rewrite (stored_unique _ _ _ _ Hwf Hs Hin E).
  now apply String.eqb_neq.
Qed.

Lemma guard_absent w n c :
  stored n w = None ->
  forall x, In x (table w) -> sql.holds (sql.And (sql.NumberEq n) c) x = false.
Proof.
  intros Hs x Hin. apply find_number_none in Hs.
  rewrite inUse_false_iff in Hs. specialize (Hs x Hin).
  cbn. apply Z.eqb_neq in Hs. now rewrite Hs.
Qed.

Lemma stored_update_other w n m f c :
  (forall r, Number (f r) = Number r) ->
  (forall r, sql.holds c r = true -> Number r = n) ->
  m <> n ->
  find (fun x => Number x =? m) (sql.update f c (table w)) = stored m w.
Proof.
  intros Hf Hc Hm. rewrite find_update by assumption. unfold stored.
  destruct (find _ (table w)) as [r|] eqn:E; [|reflexivity].
  apply find_number_some in E as [_ E]. cbn.
  destruct (sql.holds c r) eqn:Eh; [|reflexivity].
  apply Hc in Eh. congruence.
Qed.

Lemma map_Number_update f c t :
  (forall r, Number (f r) = Number r) ->
  map Number (sql.update f c t) = map Number t.
Proof.
  intros Hf. unfold sql.update. rewrite map_map. apply map_ext.
  intros r. destruct (sql.holds c r); auto.
Qed.

Lemma holds_registeredNumber_number n x :
  sql.holds (registeredNumber n) x = true -> Number x = n.
Proof.
  rewrite holds_registeredNumber. intros H.
  apply andb_true_iff in H as [H _]. now apply Z.eqb_eq.
Qed.

End Writes.

Lemma SetStatus_writes (w : World) (n : Z) (s : string) :
  hd None (faults w) = None ->
  exists w',
    ParcelStore.SetStatus n s w = (None, w') /\
    table w' = sql.update (sql.setStatus s) (sql.NumberEq n) (table w) /\
    (forall r, stored n w = Some r -> stored n w' = Some (sql.setStatus s r)) /\
    (forall m, m <> n -> stored m w' = stored m w).
Proof.
  intros Hq. rewrite SetStatus_eq, Hq. eexists. split; [reflexivity|].
  unfold stored. cbn [table withTable]. split; [reflexivity|]. split.
  - intros r Hr. rewrite find_update by reflexivity. rewrite Hr. cbn.
    apply find_number_some in Hr as [_ Hr]. apply Z.eqb_eq in Hr. now rewrite Hr.
  - intros m Hm. apply stored_update_other with (n := n); [reflexivity| |assumption].
    intros r Hr. now apply Z.eqb_eq.
Qed.

(** C6. When the driver does not fail, [SetStatus] returns no error; the
    row stored under the number, whatever its status was, is afterwards the
    row with the same number, client, address and creation time and with
    the status given, and rows under other numbers are as before.  When no row is stored under the number the table is left as it
    was: the statement reports zero rows affected and [SetStatus] returns
    no error all the same. *)
Theorem SetStatus_unconditional (w : World) (n : Z) (s : string) :
  quiet 1 w ->
  exists w',
    ParcelStore.SetStatus n s w = (None, w') /\
    (forall r, stored n w = Some r ->
               stored n w' = Some (mkParcel (Number r) (Client r) s (Address r)
                                            (CreatedAt r))) /\
    (forall m, m <> n -> stored m w' = stored m w) /\
    (stored n w = None ->
     table w' = table w /\
     sql.rowsAffected (fst (fst (sql.Exec (sql.UpdateStatus s (sql.NumberEq n)) w))) = 0).
Proof.
  intros Hq. apply quiet_S in Hq as [Hq _].
  destruct (SetStatus_writes w n s Hq) as (w' & H & Ht & Hn & Hm).
  exists w'. split; [exact H|]. split; [exact Hn|]. split; [exact Hm|].
  intros Hs. rewrite (Exec_update_status _ _ _ Hq). cbn [fst sql.rowsAffected].
  assert (Hno : forall x, In x (table w) -> sql.holds (sql.NumberEq n) x = false).
  { intros x Hin. apply find_number_none in Hs. rewrite inUse_false_iff in Hs.
    cbn. apply Z.eqb_neq. auto. }
  split; [rewrite Ht; now apply update_id|now apply matching_zero].
Qed.

Lemma SetStatus_unconditional_witness :
  quiet 1 (mkWorld [mkParcel 1 7 "delivered" "Pskov" "2024"] [] [] [] []) /\
  exists w',
    ParcelStore.SetStatus 1 "registered"
      (mkWorld [mkParcel 1 7 "delivered" "Pskov" "2024"] [] [] [] []) = (None, w') /\
    stored 1 w' = Some (mkParcel 1 7 "registered" "Pskov" "2024").
Proof.
  split; [constructor|].
  destruct (SetStatus_unconditional
              (mkWorld [mkParcel 1 7 "delivered" "Pskov" "2024"] [] [] [] [])
              1 "registered" (Forall_nil _)) as (w' & H & Hset & _).
  exists w'. split; [exact H|].
  exact (Hset (mkParcel 1 7 "delivered" "Pskov" "2024") eq_refl).
Defined.

(** C3. On a table that obeys its primary key and with no driver fault,
    [SetAddress] returns no error.  A registered row stored under the number
    becomes the row with the same number, client, status and creation time
    and with the address given; a row under the number in
    any other status, [sent] and [delivered] among them, leaves the whole
    table as it was; rows under other numbers are as before and no row is
    added or removed. *)
Theorem SetAddress_guard (w : World) (n : Z) (a : string) :
  wellFormed w -> quiet 1 w ->
  exists w',
    ParcelStore.SetAddress n a w = (None, w') /\
    (forall r, stored n w = Some r -> Status r = ParcelStatusRegistered ->
               stored n w' = Some (mkParcel (Number r) (Client r) (Status r) a
                                            (CreatedAt r))) /\
    (forall r, stored n w = Some r -> Status r <> ParcelStatusRegistered ->
               table w' = table w) /\
    (forall m, m <> n -> stored m w' = stored m w) /\
    map Number (table w') = map Number (table w).
Proof.
  intros Hwf Hq. apply quiet_S in Hq as [Hq _].
  rewrite SetAddress_eq, Hq. eexists. split; [reflexivity|].
  unfold stored. cbn [table withTable].
  split; [|split; [|split]].
  - intros r Hr Hst. rewrite find_update by reflexivity. rewrite Hr.
    cbn [option_map]. rewrite holds_registeredNumber.
    apply find_number_some in Hr as [_ Hr]. apply Z.eqb_eq in Hr.
    apply String.eqb_eq in Hst. rewrite Hr, Hst. reflexivity.
  - intros r Hr Hst. apply update_id. now apply guard_rejects with (r := r).
  - intros m Hm. apply stored_update_other with (n := n); [reflexivity| |assumption].
    apply holds_registeredNumber_number.
  - now apply map_Number_update.
Qed.

Lemma SetAddress_guard_witness :
  wellFormed (mkWorld [mkParcel 1 7 "registered" "Pskov" "2024";
                       mkParcel 2 7 "sent" "Omsk" "2024"] [] [] [] []) /\
  exists w',
    ParcelStore.SetAddress 1 "Saratov"
      (mkWorld [mkParcel 1 7 "registered" "Pskov" "2024";
                mkParcel 2 7 "sent" "Omsk" "2024"] [] [] [] []) = (None, w') /\
    stored 1 w' = Some (mkParcel 1 7 "registered" "Saratov" "2024") /\
    stored 2 w' = Some (mkParcel 2 7 "sent" "Omsk" "2024").
Proof.
  split; [reflexivity|].
  destruct (SetAddress_guard
              (mkWorld [mkParcel 1 7 "registered" "Pskov" "2024";
                        mkParcel 2 7 "sent" "Omsk" "2024"] [] [] [] [])
              1 "Saratov" eq_refl (Forall_nil _)) as (w' & H & Hset & _ & Hother & _).
  exists w'. split; [exact H|]. split.
  - exact (Hset (mkParcel 1 7 "registered" "Pskov" "2024") eq_refl eq_refl).
  - rewrite (Hother 2) by discriminate. reflexivity.
Defined.

(** C2. On a table that obeys its primary key and with no driver fault,
    [Delete] returns no error.  A row under the number in a status other
    than [registered], [sent] and [delivered] among them, leaves the whole
    table as it was; a registered row under the number is removed, after
    which [Get] of the number fails with [sql.ErrNoRows]; rows under other
    numbers are as before. *)
Theorem Delete_guard (w : World) (n : Z) :
  wellFormed w -> quiet 1 w ->
  exists w',
    ParcelStore.Delete n w = (None, w') /\
    (forall r, stored n w = Some r -> Status r <> ParcelStatusRegistered ->
               table w' = table w) /\
    (forall r, stored n w = Some r -> Status r = ParcelStatusRegistered ->
               stored n w' = None /\
               (quiet 1 w' ->
                exists w'', ParcelStore.Get n w' = ((zeroParcel, Some ErrNoRows), w''))) /\
    (forall m, m <> n -> stored m w' = stored m w).
Proof.
  intros Hwf Hq. apply quiet_S in Hq as [Hq _].
  rewrite Delete_eq, Hq. eexists. split; [reflexivity|].
  split; [|split].
  - intros r Hr Hst. cbn [table withTable].
    apply delete_id. now apply guard_rejects with (r := r).
  - intros r Hr Hst.
    assert (Hgone : stored n (withTable (sql.delete (registeredNumber n) (table w))
                                        (dropFault w)) = None).
    { unfold stored. cbn [table withTable]. apply find_number_none, inUse_false_iff.
      intros x Hx Hn. unfold sql.delete in Hx. apply filter_In in Hx as [Hin Hx].
      rewrite (stored_unique _ _ _ _ Hwf Hr Hin Hn) in Hx.
      rewrite holds_registeredNumber, Hst in Hx.
      apply find_number_some in Hr as [_ Hr]. apply Z.eqb_eq in Hr.
      rewrite Hr in Hx. discriminate. }
    split; [exact Hgone|].
    intros Hq'. apply quiet_S in Hq' as [Hq' _].
    rewrite Get_eq, Hq', Hgone. eauto.
  - intros m Hm. unfold stored. cbn [table withTable].
    apply find_delete_other. intros r Hr.
    apply holds_registeredNumber_number in Hr. congruence.
Qed.

Lemma Delete_guard_witness :
  wellFormed (mkWorld [mkParcel 1 7 "registered" "Pskov" "2024"] [] [] [] []) /\
  exists w',
    ParcelStore.Delete 1 (mkWorld [mkParcel 1 7 "registered" "Pskov" "2024"] [] [] [] [])
    = (None, w') /\ stored 1 w' = None.
Proof.
  split; [reflexivity|].
  destruct (Delete_guard (mkWorld [mkParcel 1 7 "registered" "Pskov" "2024"] [] [] [] [])
              1 eq_refl (Forall_nil _)) as (w' & H & _ & Hgone & _).
  exists w'. split; [exact H|].
  apply (Hgone (mkParcel 1 7 "registered" "Pskov" "2024") eq_refl eq_refl).
Defined.

(** ** The status chain *)

Section Chain.

Implicit Types (w : World) (n m : Z) (r : Parcel).

Lemma NextStatus_eq n w :
  ParcelService.NextStatus n w =
  match hd None (faults w) with
  | Some code => (Some (ErrStorage code), dropFault w)
  | None =>
      match stored n w with
      | None => (Some ErrNoRows, dropFault w)
      | Some r =>
          match ParcelService.switchStatus (Status r) with
          | inr _ => (None, dropFault w)
          | inl s => ParcelStore.SetStatus n s
                       (snd (print (NoticeNewStatus n s) (dropFault w)))
          end
      end
  end.
Proof.
  unfold ParcelService.NextStatus, bind. rewrite Get_eq.
  destruct (hd None (faults w)); [reflexivity|].
  destruct (stored n w) as [r|]; [|reflexivity].
  destruct (ParcelService.switchStatus (Status r)) as [s|[]]; reflexivity.
Qed.

(** Whenever the switch leaves a status in [nextStatus], that status is
    written over the stored one. *)
Lemma NextStatus_moves w n r s :
  stored n w = Some r -> ParcelService.switchStatus (Status r) = inl s ->
  quiet 2 w ->
  exists w',
    ParcelService.NextStatus n w = (None, w') /\
    stored n w' = Some (sql.setStatus s r) /\
    (forall m, m <> n -> stored m w' = stored m w).
Proof.
  intros Hr Hs Hq. apply quiet_S in Hq as [Hq1 Hq2].
  rewrite NextStatus_eq, Hq1, Hr, Hs.
  apply quiet_S in Hq2 as [Hq2 _].
  destruct (SetStatus_writes
              (snd (print (NoticeNewStatus n s) (dropFault w))) n s Hq2)
    as (w' & H & _ & Hn & Hm).
  exists w'. split; [exact H|]. split; [now apply Hn|exact Hm].
Qed.

End Chain.

(** C4. With no driver fault, [NextStatus] on a stored parcel returns no
    error.  A registered parcel is stored as sent afterwards, a sent one as
    delivered, every other field and every other row as before; for a
    delivered parcel the table is left as it was and nothing is printed. *)
Theorem NextStatus_chain (w : World) (n : Z) (r : Parcel) :
  stored n w = Some r ->
  (Status r = ParcelStatusRegistered -> quiet 2 w ->
   exists w', ParcelService.NextStatus n w = (None, w') /\
              stored n w' = Some (sql.setStatus ParcelStatusSent r) /\
              (forall m, m <> n -> stored m w' = stored m w)) /\
  (Status r = ParcelStatusSent -> quiet 2 w ->
   exists w', ParcelService.NextStatus n w = (None, w') /\
              stored n w' = Some (sql.setStatus ParcelStatusDelivered r) /\
              (forall m, m <> n -> stored m w' = stored m w)) /\
  (Status r = ParcelStatusDelivered -> quiet 1 w ->
   exists w', ParcelService.NextStatus n w = (None, w') /\
              table w' = table w /\ stdout w' = stdout w).
Proof.
  intros Hr. split; [|split]; intros Hst Hq.
  - apply NextStatus_moves; [assumption| |assumption]. now rewrite Hst.
  - apply NextStatus_moves; [assumption| |assumption]. now rewrite Hst.
  - apply quiet_S in Hq as [Hq _].
    rewrite NextStatus_eq, Hq, Hr, Hst. cbn. eauto.
Qed.

Lemma NextStatus_chain_witness :
  exists w',
    ParcelService.NextStatus 1
      (mkWorld [mkParcel 1 7 "registered" "Pskov" "2024"] [] [] [] []) = (None, w') /\
    stored 1 w' = Some (mkParcel 1 7 "sent" "Pskov" "2024").
Proof.
  destruct (NextStatus_chain (mkWorld [mkParcel 1 7 "registered" "Pskov" "2024"] [] [] [] [])
              1 (mkParcel 1 7 "registered" "Pskov" "2024") eq_refl) as [H _].
  destruct (H eq_refl (Forall_nil _)) as (w' & H1 & H2 & _).
  exists w'. split; [exact H1|exact H2].
Defined.

(** C10. With no driver fault, [NextStatus] on a stored parcel whose status
    is none of [registered], [sent] and [delivered] returns no error and
    stores the empty string as its status. *)
Theorem NextStatus_unknown_status (w : World) (n : Z) (r : Parcel) :
  stored n w = Some r -> ~ validStatus (Status r) -> quiet 2 w ->
  exists w',
    ParcelService.NextStatus n w = (None, w') /\
    stored n w' = Some (sql.setStatus EmptyString r) /\
    (forall m, m <> n -> stored m w' = stored m w).
Proof.
  intros Hr Hst Hq. apply NextStatus_moves; [assumption| |assumption].
  unfold ParcelService.switchStatus, validStatus in *.
  destruct (String.eqb_spec (Status r) ParcelStatusRegistered); [tauto|].
  destruct (String.eqb_spec (Status r) ParcelStatusSent); [tauto|].
  destruct (String.eqb_spec (Status r) ParcelStatusDelivered); [tauto|].
  reflexivity.
Qed.

Lemma NextStatus_unknown_status_witness :
  exists w',
    ParcelService.NextStatus 1
      (mkWorld [mkParcel 1 7 "lost" "Pskov" "2024"] [] [] [] []) = (None, w') /\
    stored 1 w' = Some (mkParcel 1 7 "" "Pskov" "2024").
Proof.
  destruct (NextStatus_unknown_status
              (mkWorld [mkParcel 1 7 "lost" "Pskov" "2024"] [] [] [] [])
              1 (mkParcel 1 7 "lost" "Pskov" "2024") eq_refl) as (w' & H1 & H2 & _).
  - unfold validStatus. cbn. intros [H|[H|H]]; discriminate.
  - constructor.
  - exists w'. split; [exact H1|exact H2].
Defined.

(** ** Reading by client *)

Section Reading.

Implicit Types (w : World) (c : Z) (rs acc : list Parcel).

Lemma ascending_filter lo (f : Parcel -> bool) rs :
  ascending lo rs = true -> ascending lo (filter f rs) = true.
Proof.
  revert lo. induction rs as [|y rs IH]; intros lo H; [reflexivity|].
  apply ascending_cons in H as (H1 & H2 & H3). simpl. destruct (f y).
  - apply ascending_cons. auto.
  - apply IH. apply ascending_weaken with (lo := Number y); [lia|assumption].
Qed.

(** The loop collects every selected row, in the order of the cursor. *)
Lemma scanRows_quiet rs acc w :
  quiet (S (List.length rs)) w ->
  exists w',
    ParcelStore.scanRows (map sql.project rs) acc w = ((acc ++ rs, None), w') /\
    table w' = table w.
Proof.
  revert acc w. induction rs as [|r rs IH]; intros acc w Hq;
    apply quiet_S in Hq as [Hq1 Hq]; cbn [map ParcelStore.scanRows];
    unfold bind; rewrite nextFault_eq, Hq1.
  - unfold ret. rewrite app_nil_r. eauto.
  - cbn [sql.RowsScan sql.project].
    destruct (IH (acc ++ [mkParcel (Number r) (Client r) (Status r) (Address r)
                                   (CreatedAt r)]) (dropFault w) Hq)
      as (w' & H & Ht).
    exists w'. rewrite H. split; [|exact Ht].
    rewrite <- app_assoc. destruct r; reflexivity.
Qed.

Lemma GetByClient_quiet c w :
  quiet (2 + List.length (filter (fun r => Client r =? c) (table w))) w ->
  exists w',
    ParcelStore.GetByClient c w =
      ((filter (fun r => Client r =? c) (table w), None), w') /\
    table w' = table w.
Proof.
  intros Hq. apply quiet_S in Hq as [Hq1 Hq].
  unfold ParcelStore.GetByClient, sql.Query, bind.
  rewrite nextFault_eq, Hq1. cbn [getTable ret table dropFault sql.pending sql.holds].
  destruct (scanRows_quiet (filter (fun r => Client r =? c) (table w)) [] (dropFault w) Hq)
    as (w' & H & Ht).
  exists w'. split; [exact H|exact Ht].
Qed.

End Reading.

(** C7. When the driver does not fail during the query and the iteration,
    [GetByClient] returns no error and the stored parcels whose client is
    the given one: a parcel is in the result exactly when it is stored with
    that client, each one once; the result is empty when no stored parcel
    has that client. *)
Theorem GetByClient_exact (w : World) (c : Z) :
  quiet (2 + List.length (filter (fun r => Client r =? c) (table w))) w ->
  exists ps w',
    ParcelStore.GetByClient c w = ((ps, None), w') /\
    (forall p, In p ps <-> In p (table w) /\ Client p = c) /\
    (wellFormed w -> NoDup ps) /\
    ((forall p, In p (table w) -> Client p <> c) -> ps = []) /\
    table w' = table w.
Proof.
  intros Hq. destruct (GetByClient_quiet c w Hq) as (w' & H & Ht).
  exists (filter (fun r => Client r =? c) (table w)), w'.
  split; [exact H|]. split; [|split; [|split; [|exact Ht]]].
  - intros p. rewrite filter_In, Z.eqb_eq. reflexivity.
  - intros Hwf. apply (NoDup_map_inv Number).
    apply ascending_NoDup with (lo := 0). now apply ascending_filter.
  - intros Hnone. destruct (filter _ (table w)) as [|p ps] eqn:E; [reflexivity|].
    assert (Hp : In p (filter (fun r => Client r =? c) (table w)))
      by (rewrite E; now left).
    apply filter_In in Hp as [Hin Hc]. apply Z.eqb_eq in Hc.
    now elim (Hnone p Hin).
Qed.

Lemma GetByClient_exact_witness :
  exists ps w',
    ParcelStore.GetByClient 7
      (mkWorld [mkParcel 1 7 "sent" "Pskov" "2024"; mkParcel 2 8 "registered" "Omsk" "2024";
                mkParcel 3 7 "registered" "Tver" "2025"] [None; None; None] [] [] [])
    = ((ps, None), w') /\
    (In (mkParcel 3 7 "registered" "Tver" "2025") ps) /\
    ~ In (mkParcel 2 8 "registered" "Omsk" "2024") ps.
Proof.
  destruct (GetByClient_exact
    (mkWorld [mkParcel 1 7 "sent" "Pskov" "2024"; mkParcel 2 8 "registered" "Omsk" "2024";
              mkParcel 3 7 "registered" "Tver" "2025"] [None; None; None] [] [] []) 7)
    as (ps & w' & H & Hin & _).
  - repeat constructor.
  - exists ps, w'. split; [exact H|]. split.
    + apply Hin. split; [|reflexivity]. right. right. left. reflexivity.
    + intros Hp. apply Hin in Hp as [_ Hp]. discriminate Hp.
Defined.

(** ** The text of a creation time *)

Section Timestamps.

Implicit Types (t : Time) (a b i j : Z) (s : string).

Lemma digit_compare i j :
  0 <= i <= 9 -> 0 <= j <= 9 -> Ascii.compare (time.digit i) (time.digit j) = (i ?= j).
Proof.
  intros Hi Hj. unfold Ascii.compare, time.digit, ascii_of_nat.
  rewrite !N_ascii_embedding by lia.
  destruct (Z.compare_spec i j) as [E|E|E].
  - subst. apply N.compare_refl.
  - apply N.compare_lt_iff. lia.
  - apply N.compare_gt_iff. lia.
Qed.

Lemma twoDigits_compare a b s1 s2 :
  0 <= a < 100 -> 0 <= b < 100 ->
  String.compare (time.twoDigits a ++ s1) (time.twoDigits b ++ s2) =
  match a ?= b with
  | Eq => String.compare s1 s2
  | o => o
  end.
Proof.
  intros Ha Hb. unfold time.twoDigits. cbn [append String.compare].
  assert (Hda : 0 <= a / 10 <= 9 /\ 0 <= a mod 10 <= 9 /\ a = 10 * (a / 10) + a mod 10)
    by (Z.div_mod_to_equations; lia).
  assert (Hdb : 0 <= b / 10 <= 9 /\ 0 <= b mod 10 <= 9 /\ b = 10 * (b / 10) + b mod 10)
    by (Z.div_mod_to_equations; lia).
  destruct Hda as (Ha1 & Ha2 & Ha3), Hdb as (Hb1 & Hb2 & Hb3).
  rewrite (digit_compare (a / 10) (b / 10)), (digit_compare (a mod 10) (b mod 10))
    by assumption.
  destruct (Z.compare_spec (a / 10) (b / 10)) as [E1|E1|E1].
  - destruct (Z.compare_spec (a mod 10) (b mod 10)) as [E2|E2|E2].
    + replace (a ?= b) with Eq; [reflexivity|].
      symmetry. apply Z.compare_eq_iff. lia.
    + replace (a ?= b) with Lt; [reflexivity|].
      symmetry. apply Z.compare_lt_iff. lia.
    + replace (a ?= b) with Gt; [reflexivity|].
      symmetry. apply Z.compare_gt_iff. lia.
  - replace (a ?= b) with Lt; [reflexivity|].
    symmetry. apply Z.compare_lt_iff. lia.
  - replace (a ?= b) with Gt; [reflexivity|].
    symmetry. apply Z.compare_gt_iff. lia.
Qed.

Lemma separator_compare (c : ascii) s1 s2 :
  String.compare (String c s1) (String c s2) = String.compare s1 s2.
Proof.
  cbn [String.compare]. unfold Ascii.compare. now rewrite N.compare_refl.
Qed.

Lemma appendInt_two a : 0 <= a < 100 -> time.appendInt a 2 = time.twoDigits a.
Proof.
  intros Ha. unfold time.appendInt.
  replace (a <? 0) with false by (symmetry; apply Z.ltb_ge; lia).
  rewrite Z.abs_eq by lia.
  replace (a <? 100) with true by (symmetry; apply Z.ltb_lt; lia).
  reflexivity.
Qed.

Lemma appendInt_four a :
  0 <= a < 10000 ->
  time.appendInt a 4 = (time.twoDigits (a / 100) ++ time.twoDigits (a mod 100))%string.
Proof.
  intros Ha. unfold time.appendInt.
  replace (a <? 0) with false by (symmetry; apply Z.ltb_ge; lia).
  rewrite Z.abs_eq by lia.
  replace (a <? 10000) with true by (symmetry; apply Z.ltb_lt; lia).
  reflexivity.
Qed.

Lemma FormatRFC3339_civil t :
  civil t ->
  time.FormatRFC3339 t =
  (time.twoDigits (year t / 100) ++ time.twoDigits (year t mod 100) ++
   String "-" (time.twoDigits (month t) ++ String "-" (time.twoDigits (day t) ++
   String "T" (time.twoDigits (hour t) ++ String ":" (time.twoDigits (minute t) ++
   String ":" (time.twoDigits (second t) ++ "Z"))))))%string.
Proof.
  intros (Hy & Hm & Hd & Hh & Hmi & Hs). unfold time.FormatRFC3339.
  rewrite appendInt_four, !appendInt_two by lia. reflexivity.
Qed.

Lemma FormatRFC3339_length t : civil t -> String.length (time.FormatRFC3339 t) = 20%nat.
Proof.
  intros H. rewrite FormatRFC3339_civil by assumption. reflexivity.
Qed.

(** Within four-digit years the texts are ordered as the readings are. *)
Lemma FormatRFC3339_sortable t1 t2 :
  civil t1 -> civil t2 ->
  (String.ltb (time.FormatRFC3339 t1) (time.FormatRFC3339 t2) = true <-> before t1 t2).
Proof.
  intros C1 C2. unfold String.ltb.
  rewrite !FormatRFC3339_civil by assumption.
  destruct C1 as (Hy1 & Hm1 & Hd1 & Hh1 & Hmi1 & Hs1).
  destruct C2 as (Hy2 & Hm2 & Hd2 & Hh2 & Hmi2 & Hs2).
  assert (Hq1 : 0 <= year t1 / 100 < 100 /\ 0 <= year t1 mod 100 < 100 /\
                year t1 = 100 * (year t1 / 100) + year t1 mod 100)
    by (Z.div_mod_to_equations; lia).
  assert (Hq2 : 0 <= year t2 / 100 < 100 /\ 0 <= year t2 mod 100 < 100 /\
                year t2 = 100 * (year t2 / 100) + year t2 mod 100)
    by (Z.div_mod_to_equations; lia).
  destruct Hq1 as (Hq1 & Hr1 & Hyear1), Hq2 as (Hq2 & Hr2 & Hyear2).
  rewrite (twoDigits_compare (year t1 / 100) (year t2 / 100)) by assumption.
  rewrite (twoDigits_compare (year t1 mod 100) (year t2 mod 100)) by assumption.
  rewrite separator_compare, (twoDigits_compare (month t1) (month t2)) by lia.
  rewrite separator_compare, (twoDigits_compare (day t1) (day t2)) by lia.
  rewrite separator_compare, (twoDigits_compare (hour t1) (hour t2)) by lia.
  rewrite separator_compare, (twoDigits_compare (minute t1) (minute t2)) by lia.
  rewrite separator_compare, (twoDigits_compare (second t1) (second t2)) by lia.
  rewrite separator_compare. cbn [String.compare].
  unfold before.
  generalize dependent (year t1 / 100). generalize dependent (year t1 mod 100).
  generalize dependent (year t2 / 100). generalize dependent (year t2 mod 100).
  intros yl2 Hr2 yh2 Hq2 Hyear2 yl1 Hr1 yh1 Hq1 Hyear1.
  destruct (Z.compare_spec yh1 yh2); [|split; [lia|reflexivity]|split; [discriminate|lia]].
  destruct (Z.compare_spec yl1 yl2); [|split; [lia|reflexivity]|split; [discriminate|lia]].
  destruct (Z.compare_spec (month t1) (month t2));
    [|split; [lia|reflexivity]|split; [discriminate|lia]].
  destruct (Z.compare_spec (day t1) (day t2));
    [|split; [lia|reflexivity]|split; [discriminate|lia]].
  destruct (Z.compare_spec (hour t1) (hour t2));
    [|split; [lia|reflexivity]|split; [discriminate|lia]].
  destruct (Z.compare_spec (minute t1) (minute t2));
    [|split; [lia|reflexivity]|split; [discriminate|lia]].
  destruct (Z.compare_spec (second t1) (second t2));
    [split; [discriminate|lia]|split; [lia|reflexivity]|split; [discriminate|lia]].
Qed.

End Timestamps.

(** ** Registration *)

Section Registration.

Implicit Types (w : World) (client : Z) (address : string).

Lemma timeNow_eq w : timeNow w = (hd zeroTime (clock w), dropClock w).
Proof. destruct w as [t fs ks [|now ts] out]; reflexivity. Qed.

Lemma Register_eq client address w :
  ParcelService.Register client address w =
  let parcel := mkParcel 0 client ParcelStatusRegistered address
                         (time.FormatRFC3339 (hd zeroTime (clock w))) in
  match ParcelStore.Add parcel (dropClock w) with
  | ((_, Some e), w1) => ((parcel, Some e), w1)
  | ((id, None), w1) =>
      ((withNumber parcel id, None),
       snd (print (NoticeRegistered id address client (CreatedAt parcel)) w1))
  end.
Proof.
  unfold ParcelService.Register, bind. rewrite timeNow_eq. cbn zeta.
  destruct (ParcelStore.Add _ (dropClock w)) as [[id [e|]] w1]; reflexivity.
Qed.

End Registration.

(** C8. [Register] builds a parcel with the given client and address, the
    status [registered] and, as creation time, the RFC 3339 text of the
    clock reading, and hands it to [Add].  When [Add] returns an identity,
    [Register] returns that parcel with the identity as its number and no
    error, and the table is the one [Add] left; on a table that obeys its
    primary key the number is not zero and the returned parcel is the one
    stored under it.  When [Add] returns an error, [Register] returns the
    same error and the parcel as built, its number zero.  With the largest
    rowid free and no driver fault, [Register] succeeds.  For a reading with
    a four-digit year the text has twenty characters, and texts of such
    readings are ordered as the readings are. *)
Theorem Register_builds_and_persists (w : World) (client : Z) (address : string) :
  let now := hd zeroTime (clock w) in
  let parcel := mkParcel 0 client ParcelStatusRegistered address
                         (time.FormatRFC3339 now) in
  (forall id w1,
      ParcelStore.Add parcel (dropClock w) = ((id, None), w1) ->
      exists w', ParcelService.Register client address w
                 = ((withNumber parcel id, None), w') /\
                 table w' = table w1) /\
  (forall id e w1,
      ParcelStore.Add parcel (dropClock w) = ((id, Some e), w1) ->
      ParcelService.Register client address w = ((parcel, Some e), w1) /\
      Number parcel = 0) /\
  (wellFormed w ->
   forall p w',
     ParcelService.Register client address w = ((p, None), w') ->
     p = withNumber parcel (Number p) /\ Number p <> 0 /\
     stored (Number p) w = None /\ stored (Number p) w' = Some p) /\
  (wellFormed w -> quiet 2 w -> sql.lastRowid (table w) <> Some sql.MAX_ROWID ->
   exists p w', ParcelService.Register client address w = ((p, None), w')) /\
  (civil now ->
   String.length (CreatedAt parcel) = 20%nat /\
   forall t, civil t ->
     (String.ltb (time.FormatRFC3339 t) (CreatedAt parcel) = true <-> before t now)).
Proof.
  intros now parcel. split; [|split; [|split; [|split]]].
  - intros id w1 H. rewrite Register_eq. cbn zeta. fold now. fold parcel.
    rewrite H. eexists. split; reflexivity.
  - intros id e w1 H. rewrite Register_eq. cbn zeta. fold now. fold parcel.
    rewrite H. split; reflexivity.
  - intros Hwf p w'. rewrite Register_eq. cbn zeta. fold now. fold parcel.
    destruct (ParcelStore.Add parcel (dropClock w)) as [[id [e|]] w1] eqn:E;
      [discriminate|].
    intros H. injection H as <- <-.
    apply Add_cases in E
      as [(code & He & _)|[(code & k & He & _)|(_ & Hid & Hfree & Ht)]];
      [discriminate|discriminate| |exact Hwf].
    cbn [Number withNumber]. split; [reflexivity|]. split; [lia|].
    split; [now apply find_number_none|].
    unfold stored. cbn [table print snd]. rewrite Ht.
    change (sql.insertRow (withNumber parcel id) (table (dropClock w)))
      with (sql.insertRow (withNumber parcel id) (table w)).
    change id with (Number (withNumber parcel id)) at 1.
    rewrite find_insertRow_same by assumption. reflexivity.
  - intros Hwf Hq Hmax. rewrite Register_eq. cbn zeta.
    rewrite (Add_next _ (dropClock w)) by assumption. eauto.
  - intros Hnow. split; [exact (FormatRFC3339_length now Hnow)|].
    intros t Ht. now apply FormatRFC3339_sortable.
Qed.

Lemma Register_builds_and_persists_witness :
  wellFormed (emptyWorld [] [] [mkTime 2024 5 6 7 8 9]) /\
  stored 1 (snd (ParcelService.Register 7 "Pskov" (emptyWorld [] [] [mkTime 2024 5 6 7 8 9])))
  = Some (mkParcel 1 7 "registered" "Pskov" "2024-05-06T07:08:09Z").
Proof.
  split; [reflexivity|].
  destruct (Register_builds_and_persists (emptyWorld [] [] [mkTime 2024 5 6 7 8 9]) 7 "Pskov")
    as (_ & _ & H & _).
  destruct (H eq_refl (mkParcel 1 7 "registered" "Pskov" "2024-05-06T07:08:09Z")
              (snd (ParcelService.Register 7 "Pskov"
                      (emptyWorld [] [] [mkTime 2024 5 6 7 8 9]))) eq_refl)
    as (_ & _ & _ & Hs).
  exact Hs.
Defined.

(** ** The service as a state machine *)

Section Machine.

Implicit Types (w : World) (t : list Parcel) (n : Z) (r : Parcel) (o : op).

Lemma exec_tableStep o w :
  wellFormed w -> tableStep (table w) (table (exec o w)).
Proof.
  intros Hwf. destruct o as [client address|n|n a|n]; unfold exec.
  - rewrite Register_eq. cbn zeta.
    destruct (ParcelStore.Add _ (dropClock w)) as [[id err] w1] eqn:E.
    assert (Hstep : tableStep (table w) (table w1)).
    { apply Add_cases in E
        as [(code & _ & _ & Ht)|[(code & k & _ & _ & Hk & Hfree & Ht)
                                |(_ & Hk & Hfree & Ht)]];
        [| | |exact Hwf]; rewrite Ht.
      - constructor.
      - apply StepInsert; [reflexivity|exact Hk|exact Hfree].
      - apply StepInsert; [reflexivity|exact Hk|exact Hfree]. }
    destruct err; exact Hstep.
  - rewrite NextStatus_eq.
    destruct (hd None (faults w)); [constructor|].
    destruct (stored n w) as [r|] eqn:Er; [|constructor].
    destruct (ParcelService.switchStatus (Status r)) as [s|] eqn:Es; [|constructor].
    rewrite SetStatus_eq.
    destruct (hd None _); [constructor|].
    cbn [snd table withTable print dropFault]. now apply StepStatus with (r := r).
  - unfold ParcelService.ChangeAddress. rewrite SetAddress_eq.
    destruct (hd None (faults w)); constructor.
  - unfold ParcelService.Delete. rewrite Delete_eq.
    destruct (hd None (faults w)); constructor.
Qed.

Lemma switchStatus_valid s s' :
  validStatus s -> ParcelService.switchStatus s = inl s' ->
  validStatus s' /\ advance s s'.
Proof.
  unfold validStatus, advance.
  intros [-> | [-> | ->]]; cbn; intros H; inversion H; subst; tauto.
Qed.

Lemma tableStep_invariant t t' :
  invariant t -> tableStep t t' -> invariant t'.
Proof.
  intros [Hasc Hval] Hstep. destruct Hstep as [|r Hst Hr Hfree|n r s Hr Hs|n a|n].
  - now split.
  - split.
    + apply ascending_insertRow; [assumption|lia|assumption].
    + intros x Hx. apply In_insertRow in Hx as [->|Hx]; [|now apply Hval].
      left. exact Hst.
  - split.
    + now apply ascending_update.
    + intros x Hx. unfold sql.update in Hx. apply in_map_iff in Hx as (y & <- & Hy).
      destruct (sql.holds (sql.NumberEq n) y); [|now apply Hval].
      apply find_number_some in Hr as [Hin _].
      apply (switchStatus_valid (Status r)); [now apply Hval|exact Hs].
  - split.
    + now apply ascending_update.
    + intros x Hx. unfold sql.update in Hx. apply in_map_iff in Hx as (y & <- & Hy).
      destruct (sql.holds (registeredNumber n) y); cbn [Status sql.setAddress];
        now apply Hval.
  - split.
    + now apply ascending_delete.
    + intros x Hx. unfold sql.delete in Hx. apply filter_In in Hx as [Hx _].
      now apply Hval.
Qed.

Lemma advance_refl s : advance s s.
Proof. now left. Qed.

(** A row present before and after a step has kept its status or moved
    one stage forward. *)
Lemma tableStep_advance t t' n r r' :
  invariant t -> tableStep t t' ->
  find (fun x => Number x =? n) t = Some r ->
  find (fun x => Number x =? n) t' = Some r' ->
  advance (Status r) (Status r').
Proof.
  intros [Hasc Hval] Hstep Hr Hr'.
  destruct Hstep as [|x Hst Hx Hfree|m r0 s Hr0 Hs|m a|m].
  - replace r' with r by congruence. apply advance_refl.
  - destruct (Z.eq_dec n (Number x)) as [->|Hn].
    + apply find_number_none in Hfree. congruence.
    + rewrite find_insertRow_other in Hr' by assumption.
      replace r' with r by congruence. apply advance_refl.
  - rewrite find_update, Hr in Hr' by reflexivity. cbn in Hr'.
    injection Hr' as <-.
    destruct (Number r =? m) eqn:E; [|apply advance_refl].
    apply Z.eqb_eq in E. apply find_number_some in Hr as [Hin Hn].
    assert (r0 = r) by (pose proof (ascending_find _ _ _ Hasc Hin) as Hf;
                        rewrite E in Hf; congruence).
    subst r0. cbn. apply (switchStatus_valid (Status r)); [now apply Hval|exact Hs].
  - rewrite find_update, Hr in Hr' by reflexivity. cbn [option_map] in Hr'.
    injection Hr' as <-.
    match goal with |- context [if ?b then _ else _] => destruct b end;
      apply advance_refl.
  - apply find_number_some in Hr' as [Hin' Hn'].
    unfold sql.delete in Hin'. apply filter_In in Hin' as [Hin' _].
    pose proof (ascending_find _ _ _ Hasc Hin') as Hf. rewrite Hn' in Hf.
    replace r' with r by congruence. apply advance_refl.
Qed.

(** Only a registered row can leave the table. *)
Lemma tableStep_removed t t' n r :
  tableStep t t' ->
  find (fun x => Number x =? n) t = Some r ->
  find (fun x => Number x =? n) t' = None ->
  Status r = ParcelStatusRegistered.
Proof.
  intros Hstep Hr Hnone. destruct Hstep as [|x Hst Hx Hfree|m r0 s Hr0 Hs|m a|m].
  - congruence.
  - destruct (Z.eq_dec n (Number x)) as [->|Hn].
    + rewrite find_insertRow_same in Hnone by assumption. discriminate.
    + rewrite find_insertRow_other in Hnone by assumption. congruence.
  - rewrite find_update, Hr in Hnone by reflexivity. discriminate.
  - rewrite find_update, Hr in Hnone by reflexivity. discriminate.
  - destruct (String.eqb_spec (Status r) ParcelStatusRegistered) as [E|E]; [exact E|].
    exfalso. apply find_number_some in Hr as [Hin Hn].
    apply find_number_none in Hnone. rewrite inUse_false_iff in Hnone.
    apply (Hnone r); [|exact Hn].
    unfold sql.delete. apply filter_In. split; [exact Hin|].
    rewrite holds_registeredNumber. apply String.eqb_neq in E. rewrite E.
    now rewrite andb_false_r.
Qed.

Lemma run_invariant ops w :
  invariant (table w) -> invariant (table (run ops w)).
Proof.
  revert w. induction ops as [|o ops IH]; intros w Hinv; [exact Hinv|].
  cbn [run fold_left]. apply IH.
  apply tableStep_invariant with (t := table w); [exact Hinv|].
  apply exec_tableStep. exact (proj1 Hinv).
Qed.

Lemma advance_rank s s' : validStatus s -> advance s s' -> rank s <= rank s'.
Proof.
  unfold validStatus, advance.
  intros [-> | [-> | ->]] [-> | [[E ->] | [E ->]]]; try discriminate E; cbn; lia.
Qed.

Lemma rank_valid s : validStatus s -> 0 <= rank s.
Proof. intros [-> | [-> | ->]]; cbn; lia. Qed.

(** Along a run the rank of a stored parcel never decreases. *)
Lemma run_rank ops w n r r' :
  invariant (table w) ->
  stored n w = Some r -> stored n (run ops w) = Some r' ->
  rank (Status r) <= rank (Status r').
Proof.
  revert w r. induction ops as [|o ops IH]; intros w r Hinv Hr Hr'.
  - cbn in Hr'. replace r' with r by congruence. lia.
  - cbn [run fold_left] in Hr'.
    pose proof (exec_tableStep o w (proj1 Hinv)) as Hstep.
    pose proof (tableStep_invariant _ _ Hinv Hstep) as Hinv1.
    destruct (stored n (exec o w)) as [r1|] eqn:E1.
    + apply Z.le_trans with (rank (Status r1)).
      * apply advance_rank.
        -- apply (proj2 Hinv). now apply find_number_some in Hr.
        -- exact (tableStep_advance _ _ _ _ _ Hinv Hstep Hr E1).
      * exact (IH _ _ Hinv1 E1 Hr').
    + rewrite (tableStep_removed _ _ _ _ Hstep Hr E1).
      apply rank_valid.
      apply (proj2 (run_invariant ops _ Hinv1)).
      change (fold_left (fun w o => exec o w) ops (exec o w)) with (run ops (exec o w)) in Hr'.
      now apply find_number_some in Hr'.
Qed.

(** A parcel that left [registered] is never removed. *)
Lemma run_keeps ops w n r :
  invariant (table w) ->
  stored n w = Some r -> Status r <> ParcelStatusRegistered ->
  exists r', stored n (run ops w) = Some r'.
Proof.
  revert w r. induction ops as [|o ops IH]; intros w r Hinv Hr Hst; [now exists r|].
  cbn [run fold_left].
  pose proof (exec_tableStep o w (proj1 Hinv)) as Hstep.
  pose proof (tableStep_invariant _ _ Hinv Hstep) as Hinv1.
  destruct (stored n (exec o w)) as [r1|] eqn:E1.
  - apply (IH _ r1 Hinv1 E1).
    pose proof (tableStep_advance _ _ _ _ _ Hinv Hstep Hr E1) as [E|[[E _]|[_ E]]].
    + congruence.
    + contradiction.
    + rewrite E. discriminate.
  - elim Hst. exact (tableStep_removed _ _ _ _ Hstep Hr E1).
Qed.

Lemma invariant_empty fs ks ts : invariant (table (emptyWorld fs ks ts)).
Proof. split; [reflexivity|]. intros r []. Qed.

End Machine.

(** C5. Start from an empty table, with any script of driver faults, rowid
    candidates and clock readings, and run any sequence of [Register],
    [NextStatus], [ChangeAddress] and [Delete].  Every stored parcel then
    has one of the three statuses.  A further operation leaves the status
    of a parcel that is stored before and after it as it was, or moves it
    from [registered] to [sent] or from [sent] to [delivered].  Over any
    number of further operations the position of a parcel's status in the
    chain never decreases, and a delivered parcel stays stored and
    delivered. *)
Theorem status_chain (fs : list (option Z)) (ks : list Z) (ts : list Time) (ops : list op) :
  let w := run ops (emptyWorld fs ks ts) in
  (forall r, In r (table w) -> validStatus (Status r)) /\
  (forall o n r r',
      stored n w = Some r -> stored n (exec o w) = Some r' ->
      advance (Status r) (Status r')) /\
  (forall more n r r',
      stored n w = Some r -> stored n (run more w) = Some r' ->
      rank (Status r) <= rank (Status r')) /\
  (forall more n r,
      stored n w = Some r -> Status r = ParcelStatusDelivered ->
      exists r', stored n (run more w) = Some r' /\ Status r' = ParcelStatusDelivered).
Proof.
  intros w.
  assert (Hinv : invariant (table w)) by apply run_invariant, invariant_empty.
  split; [exact (proj2 Hinv)|]. split; [|split].
  - intros o n r r' Hr Hr'.
    apply (tableStep_advance (table w) (table (exec o w)) n); try assumption.
    apply exec_tableStep. exact (proj1 Hinv).
  - intros more n r r'. now apply run_rank.
  - intros more n r Hr Hst.
    destruct (run_keeps more w n r Hinv Hr) as [r' Hr'].
    { rewrite Hst. discriminate. }
    exists r'. split; [exact Hr'|].
    pose proof (run_rank more w n r r' Hinv Hr Hr') as Hrank.
    rewrite Hst in Hrank.
    assert (Hv : validStatus (Status r')).
    { apply (proj2 (run_invariant more w Hinv)). now apply find_number_some in Hr'. }
    destruct Hv as [E|[E|E]]; rewrite E in Hrank; cbn in Hrank; [lia|lia|exact E].
Qed.

Lemma status_chain_witness :
  stored 1 (run [OpRegister 7 "Pskov"; OpNextStatus 1] (emptyWorld [] [] []))
  = Some (mkParcel 1 7 "sent" "Pskov" "0001-01-01T00:00:00Z") /\
  advance "sent" "delivered".
Proof.
  split; [reflexivity|].
  destruct (status_chain [] [] [] [OpRegister 7 "Pskov"; OpNextStatus 1]) as (_ & H & _).
  apply (H (OpNextStatus 1) 1
           (mkParcel 1 7 "sent" "Pskov" "0001-01-01T00:00:00Z")
           (mkParcel 1 7 "delivered" "Pskov" "0001-01-01T00:00:00Z")
           eq_refl eq_refl).
Defined.

(** ** Worked runs *)

(** A rowid is free again once its row is deleted: the table has no
    AUTOINCREMENT, so the identity of a deleted parcel is handed out anew
    when it was the largest. *)
Example identity_reused_after_delete :
  let p := mkParcel 0 7 "registered" "Pskov" "2024" in
  let w1 := snd (ParcelStore.Add p (emptyWorld [] [] [])) in
  let w2 := snd (ParcelStore.Delete 1 w1) in
  fst (ParcelStore.Add p (emptyWorld [] [] [])) = (1, None) /\
  table w2 = [] /\
  fst (ParcelStore.Add p w2) = (1, None).
Proof. repeat split. Qed.

(** The demonstration of [main]: register, change the address, advance the
    status, then try to change the address and to delete. *)
Example demonstration_run :
  let w := run [OpRegister 1 "A"; OpChangeAddress 1 "B"; OpNextStatus 1;
                OpChangeAddress 1 "C"; OpDelete 1]
               (emptyWorld [] [] [mkTime 2024 5 6 7 8 9]) in
  table w = [mkParcel 1 1 "sent" "B" "2024-05-06T07:08:09Z"].
Proof. reflexivity. Qed.

(** * Further properties of the store and the service *)

(** ** What a call leaves alone *)

Section Frames.

Implicit Types (w : World) (n c : Z) (rs acc : list Parcel).

Lemma sameOutside_refl w : sameOutside w w.
Proof. repeat split. Qed.

Lemma sameOutside_trans w1 w2 w3 :
  sameOutside w1 w2 -> sameOutside w2 w3 -> sameOutside w1 w3.
Proof. unfold sameOutside. intros (-> & -> & ->) (-> & -> & ->). repeat split. Qed.

Lemma sameOutside_dropFault w : sameOutside w (dropFault w).
Proof. repeat split. Qed.

Lemma dropFault_reliable w : reliable w -> dropFault w = w.
Proof. destruct w as [t fs ks ts out]. unfold reliable. cbn. now intros ->. Qed.

Lemma reliable_quiet k w : reliable w -> quiet k w.
Proof. unfold reliable, quiet. intros ->. destruct k; constructor. Qed.

Lemma reliable_hd w : reliable w -> hd None (faults w) = None.
Proof. unfold reliable. now intros ->. Qed.

(** The loop of [GetByClient], whatever the driver does: all the rows of
    the cursor, or none and the error. *)
Lemma scanRows_cases rs acc w ps err w' :
  ParcelStore.scanRows (map sql.project rs) acc w = ((ps, err), w') ->
  table w' = table w /\ sameOutside w w' /\
  ((err = None /\ ps = acc ++ rs) \/
   (exists code, err = Some (ErrStorage code) /\ ps = [])).
Proof.
  revert acc w. induction rs as [|r rs IH]; intros acc w;
    cbn [map ParcelStore.scanRows]; unfold bind; rewrite nextFault_eq;
    destruct (hd None (faults w)) as [code|]; unfold ret.
  - intros H. injection H as <- <- <-.
    split; [reflexivity|]. split; [apply sameOutside_dropFault|]. right. eauto.
  - intros H. injection H as <- <- <-.
    split; [reflexivity|]. split; [apply sameOutside_dropFault|]. left.
    now rewrite app_nil_r.
  - intros H. injection H as <- <- <-.
    split; [reflexivity|]. split; [apply sameOutside_dropFault|]. right. eauto.
  - cbn [sql.RowsScan sql.project]. intros H. apply IH in H as (Ht & Hout & H).
    split; [exact Ht|]. split.
    + apply sameOutside_trans with (dropFault w); [apply sameOutside_dropFault|exact Hout].
    + destruct H as [[-> ->]|H]; [left|right; exact H].
      split; [reflexivity|]. rewrite <- app_assoc. destruct r; reflexivity.
Qed.

Lemma GetByClient_cases c w ps err w' :
  ParcelStore.GetByClient c w = ((ps, err), w') ->
  table w' = table w /\ sameOutside w w' /\
  ((err = None /\ ps = filter (fun r => Client r =? c) (table w)) \/
   (exists code, err = Some (ErrStorage code) /\ ps = [])).
Proof.
  unfold ParcelStore.GetByClient, sql.Query, bind. rewrite nextFault_eq.
  destruct (hd None (faults w)) as [code|]; unfold ret.
  - intros H. injection H as <- <- <-.
    split; [reflexivity|]. split; [apply sameOutside_dropFault|]. right. eauto.
  - cbn [getTable table dropFault sql.pending sql.holds].
    intros H. apply scanRows_cases in H as (Ht & Hout & H).
    split; [exact Ht|]. split; [|exact H].
    apply sameOutside_trans with (dropFault w); [apply sameOutside_dropFault|exact Hout].
Qed.

End Frames.

(** X1. [Get] never changes the table, the clock or the console.  When it
    returns no error the parcel is the one stored under the number asked
    for; when it returns an error the parcel is Go's zero value; with no
    driver fault and nothing stored under the number the error is
    [sql.ErrNoRows], and a driver fault is returned as it is. *)
Theorem Get_reads_only (w : World) (n : Z) :
  table (snd (ParcelStore.Get n w)) = table w /\
  sameOutside w (snd (ParcelStore.Get n w)) /\
  (forall p, fst (ParcelStore.Get n w) = (p, None) -> stored n w = Some p /\ Number p = n) /\
  (forall p e, fst (ParcelStore.Get n w) = (p, Some e) -> p = zeroParcel) /\
  (hd None (faults w) = None -> stored n w = None ->
   fst (ParcelStore.Get n w) = (zeroParcel, Some ErrNoRows)) /\
  (forall code, hd None (faults w) = Some code ->
   fst (ParcelStore.Get n w) = (zeroParcel, Some (ErrStorage code))).
Proof.
  rewrite Get_eq. cbn [fst snd].
  split; [reflexivity|]. split; [apply sameOutside_dropFault|].
  split; [|split; [|split]].
  - intros p H. destruct (hd None (faults w)); [discriminate|].
    destruct (stored n w) as [r|] eqn:E; [|discriminate].
    injection H as <-. split; [reflexivity|]. now apply find_number_some in E.
  - intros p e H. destruct (hd None (faults w)); [now injection H as <- _|].
    destruct (stored n w); [discriminate|]. now injection H as <- _.
  - intros Hq Hs. now rewrite Hq, Hs.
  - intros code Hf. now rewrite Hf.
Qed.

Lemma Get_reads_only_witness :
  fst (ParcelStore.Get 4 (mkWorld [mkParcel 1 7 "sent" "Pskov" "2024"] [] [] [] []))
  = (zeroParcel, Some ErrNoRows).
Proof.
  destruct (Get_reads_only (mkWorld [mkParcel 1 7 "sent" "Pskov" "2024"] [] [] [] []) 4)
    as (_ & _ & _ & _ & H & _).
  apply H; reflexivity.
Defined.

(** X2. [GetByClient] never changes the table, the clock or the console,
    and never returns a part of the answer: either no error and every
    stored parcel of the client, in table order, or a driver error and an
    empty list; and it returns no error when the driver does not fail
    during the query and the iteration. *)
Theorem GetByClient_all_or_nothing (w w' : World) (c : Z)
        (ps : list Parcel) (err : option error) :
  ParcelStore.GetByClient c w = ((ps, err), w') ->
  table w' = table w /\ sameOutside w w' /\
  ((err = None /\ ps = filter (fun r => Client r =? c) (table w)) \/
   (exists code, err = Some (ErrStorage code) /\ ps = [])) /\
  (quiet (2 + List.length (filter (fun r => Client r =? c) (table w))) w -> err = None).
Proof.
  intros H. pose proof (GetByClient_cases _ _ _ _ _ H) as (Ht & Ho & Hcases).
  split; [exact Ht|]. split; [exact Ho|]. split; [exact Hcases|].
  intros Hq. destruct (GetByClient_quiet c w Hq) as (w2 & H2 & _).
  rewrite H in H2. now injection H2 as _ ->.
Qed.

Lemma GetByClient_all_or_nothing_witness :
  exists code,
    Some (ErrStorage 10) = Some (ErrStorage code) /\ @nil Parcel = [].
Proof.
  destruct (GetByClient_all_or_nothing
              (mkWorld [mkParcel 1 7 "sent" "Pskov" "2024"; mkParcel 2 7 "sent" "Omsk" "2024"]
                       [None; None; Some 10] [] [] [])
              (mkWorld [mkParcel 1 7 "sent" "Pskov" "2024"; mkParcel 2 7 "sent" "Omsk" "2024"]
                       [] [] [] [])
              7 [] (Some (ErrStorage 10)) eq_refl) as (_ & _ & [[H _]|H] & _).
  - discriminate H.
  - exact H.
Defined.

(** ** Failing writes *)

(** X3. An error from [SetStatus], [SetAddress] or [Delete] is always a
    driver error, and it means that nothing was written: the table is as it
    was.  None of the three touches the clock or the console. *)
Theorem writes_fail_without_effect (w : World) (n : Z) (s a : string) :
  (forall e w', ParcelStore.SetStatus n s w = (Some e, w') ->
                table w' = table w /\ exists code, e = ErrStorage code) /\
  (forall e w', ParcelStore.SetAddress n a w = (Some e, w') ->
                table w' = table w /\ exists code, e = ErrStorage code) /\
  (forall e w', ParcelStore.Delete n w = (Some e, w') ->
                table w' = table w /\ exists code, e = ErrStorage code) /\
  sameOutside w (snd (ParcelStore.SetStatus n s w)) /\
  sameOutside w (snd (ParcelStore.SetAddress n a w)) /\
  sameOutside w (snd (ParcelStore.Delete n w)).
Proof.
  rewrite SetStatus_eq, SetAddress_eq, Delete_eq.
  destruct (hd None (faults w)) as [code|].
  - repeat (split; [intros e w' H; injection H as <- <-; split; [reflexivity|eauto]|]).
    repeat split.
  - repeat (split; [intros e w' H; discriminate H|]).
    repeat split.
Qed.

Lemma writes_fail_without_effect_witness :
  table (mkWorld [mkParcel 1 7 "registered" "Pskov" "2024"] [] [] [] [])
  = table (mkWorld [mkParcel 1 7 "registered" "Pskov" "2024"] [Some 5] [] [] []) /\
  exists code, ErrStorage 5 = ErrStorage code.
Proof.
  destruct (writes_fail_without_effect
              (mkWorld [mkParcel 1 7 "registered" "Pskov" "2024"] [Some 5] [] [] [])
              1 "sent" "Omsk") as (_ & _ & H & _).
  apply (H (ErrStorage 5) (mkWorld [mkParcel 1 7 "registered" "Pskov" "2024"] [] [] [] [])).
  reflexivity.
Defined.

Section AddFrames.

Implicit Types (w : World) (p : Parcel).

Lemma Exec_outside (s : sql.stmt) w :
  clock (snd (sql.Exec s w)) = clock w /\ stdout (snd (sql.Exec s w)) = stdout w.
Proof.
  destruct w as [t [|[code|] fs] ks ts out]; destruct s; try (split; reflexivity);
    unfold sql.Exec, sql.newRowid, nextCandidate, nextFault, getTable, setTable, bind, ret;
    cbn [faults table rowids clock stdout];
    destruct (sql.lastRowid t) as [n|]; try (split; reflexivity);
    destruct (n <? sql.MAX_ROWID); try (split; reflexivity);
    destruct ks as [|k ks]; try (split; reflexivity);
    cbn [faults table rowids clock stdout];
    match goal with |- context [if ?b then _ else _] => destruct b end;
    split; reflexivity.
Qed.

Lemma Add_outside p w :
  clock (snd (ParcelStore.Add p w)) = clock w /\
  stdout (snd (ParcelStore.Add p w)) = stdout w.
Proof.
  unfold ParcelStore.Add, bind.
  pose proof (Exec_outside
                (sql.InsertParcel (Client p) (Status p) (Address p) (CreatedAt p)) w) as H.
  destruct (sql.Exec _ w) as [[res [e|]] w1]; cbn [snd] in H; [exact H|].
  rewrite LastInsertId_eq.
  destruct (hd None (faults w1)); cbn [snd ret dropFault clock stdout]; exact H.
Qed.

(** The write goes through and the identity cannot be retrieved. *)
Lemma Add_lost_identity p w code :
  wellFormed w ->
  hd None (faults w) = None -> hd None (tl (faults w)) = Some code ->
  sql.lastRowid (table w) <> Some sql.MAX_ROWID ->
  let id := match sql.lastRowid (table w) with Some n => n + 1 | None => 1 end in
  ParcelStore.Add p w =
  ((0, Some (ErrStorage code)),
   withTable (table w ++ [withNumber p id]) (dropFault (dropFault w))).
Proof.
  intros Hwf Hf1 Hf2 Hmax id. unfold ParcelStore.Add, bind.
  rewrite Exec_insert_next by assumption. fold id.
  rewrite LastInsertId_eq. cbn [faults withTable dropFault].
  rewrite Hf2. reflexivity.
Qed.

Lemma stored_append_new w t (r : Parcel) :
  sql.inUse (Number r) t = false ->
  find (fun x => Number x =? Number r) (t ++ [r]) = Some r.
Proof.
  intros Hfree. induction t as [|y t IH]; cbn.
  - now rewrite Z.eqb_refl.
  - cbn in Hfree. apply orb_false_iff in Hfree as [Hy Ht]. rewrite Hy. auto.
Qed.

Lemma next_rowid_free w :
  wellFormed w ->
  sql.inUse (match sql.lastRowid (table w) with Some n => n + 1 | None => 1 end)
            (table w) = false.
Proof.
  intros Hwf. destruct (sql.lastRowid (table w)) as [n|] eqn:El.
  - destruct (ascending_lastRowid _ _ _ Hwf El) as [_ Hall].
    apply inUse_false_iff. intros r Hr. specialize (Hall r Hr). lia.
  - apply lastRowid_none in El. now rewrite El.
Qed.

End AddFrames.

(** X4. An error from [Register] does not mean that nothing was stored.
    When the insertion goes through and the retrieval of the identity fails,
    [Register] returns that error and a parcel numbered zero, prints no
    notice, and the parcel is in the table all the same, under the next
    rowid. *)
Theorem Register_error_after_insert (w : World) (client : Z) (address : string) (code : Z) :
  wellFormed w ->
  hd None (faults w) = None -> hd None (tl (faults w)) = Some code ->
  sql.lastRowid (table w) <> Some sql.MAX_ROWID ->
  let id := match sql.lastRowid (table w) with Some n => n + 1 | None => 1 end in
  exists p w',
    ParcelService.Register client address w = ((p, Some (ErrStorage code)), w') /\
    Number p = 0 /\
    stored id w = None /\
    stored id w' = Some (withNumber p id) /\
    stdout w' = stdout w.
Proof.
  intros Hwf Hf1 Hf2 Hmax id.
  rewrite Register_eq. cbn zeta.
  rewrite (Add_lost_identity _ (dropClock w) code) by assumption.
  fold id. eexists. eexists. split; [reflexivity|].
  split; [reflexivity|]. split; [|split; [|reflexivity]].
  - apply find_number_none. now apply next_rowid_free.
  - unfold stored. cbn [table withTable dropClock].
    match goal with |- find _ (_ ++ [?r]) = _ =>
      change id with (Number r) at 1; apply (stored_append_new w) end.
    now apply next_rowid_free.
Qed.

Lemma Register_error_after_insert_witness :
  exists p w',
    ParcelService.Register 7 "Pskov" (emptyWorld [None; Some 10] [] [])
    = ((p, Some (ErrStorage 10)), w') /\
    Number p = 0 /\
    stored 1 (emptyWorld [None; Some 10] [] []) = None /\
    stored 1 w' = Some (withNumber p 1) /\
    stdout w' = stdout (emptyWorld [None; Some 10] [] []).
Proof.
  apply (Register_error_after_insert (emptyWorld [None; Some 10] [] []) 7 "Pskov" 10).
  - reflexivity.
  - reflexivity.
  - reflexivity.
  - discriminate.
Defined.

(** ** The primary key *)

(** X5. Every operation of the store keeps the table's primary key: from
    a table whose numbers ascend strictly within the rowid range, each of
    [Add], [Get], [GetByClient], [SetStatus], [SetAddress] and [Delete]
    leaves such a table, whatever the arguments and whatever the driver
    does. *)
Theorem store_keeps_primary_key (w : World) (p : Parcel) (n c : Z) (s a : string) :
  wellFormed w ->
  wellFormed (snd (ParcelStore.Add p w)) /\
  wellFormed (snd (ParcelStore.Get n w)) /\
  wellFormed (snd (ParcelStore.GetByClient c w)) /\
  wellFormed (snd (ParcelStore.SetStatus n s w)) /\
  wellFormed (snd (ParcelStore.SetAddress n a w)) /\
  wellFormed (snd (ParcelStore.Delete n w)).
Proof.
  intros Hwf. unfold wellFormed in *. repeat split.
  - destruct (ParcelStore.Add p w) as [[id err] w'] eqn:E. cbn [snd].
    apply Add_cases in E
      as [(code & _ & _ & Ht)|[(code & k & _ & _ & Hk & Hfree & Ht)|(_ & Hk & Hfree & Ht)]];
      [now rewrite Ht| | |exact Hwf].
    + apply (wellFormed_insertRow w _ (withNumber p k)); assumption.
    + apply (wellFormed_insertRow w _ (withNumber p id)); assumption.
  - now rewrite Get_eq.
  - destruct (ParcelStore.GetByClient c w) as [[ps err] w'] eqn:E. cbn [snd].
    apply GetByClient_cases in E as (Ht & _). now rewrite Ht.
  - rewrite SetStatus_eq. destruct (hd None (faults w)); [exact Hwf|].
    cbn [snd table withTable]. now apply ascending_update.
  - rewrite SetAddress_eq. destruct (hd None (faults w)); [exact Hwf|].
    cbn [snd table withTable]. now apply ascending_update.
  - rewrite Delete_eq. destruct (hd None (faults w)); [exact Hwf|].
    cbn [snd table withTable]. now apply ascending_delete.
Qed.

Lemma store_keeps_primary_key_witness :
  wellFormed (snd (ParcelStore.Add (mkParcel 0 7 "registered" "Pskov" "2024")
                     (mkWorld [mkParcel 3 7 "sent" "Omsk" "2024"] [] [] [] []))).
Proof.
  destruct (store_keeps_primary_key
              (mkWorld [mkParcel 3 7 "sent" "Omsk" "2024"] [] [] [] [])
              (mkParcel 0 7 "registered" "Pskov" "2024") 3 7 "sent" "Tver" eq_refl)
    as (H & _).
  exact H.
Defined.

(** ** The console *)

(** X6. [Register] prints its notice exactly when it returns no error, and
    the notice carries the number, address, client and creation time of the
    parcel it returns; on an error it prints nothing.  Either way it reads
    the clock once. *)
Theorem Register_prints_once (w w' : World) (client : Z) (address : string)
        (p : Parcel) (err : option error) :
  ParcelService.Register client address w = ((p, err), w') ->
  clock w' = tl (clock w) /\
  (err = None ->
   stdout w' = stdout w ++ [NoticeRegistered (Number p) address client (CreatedAt p)]) /\
  (err <> None -> stdout w' = stdout w).
Proof.
  rewrite Register_eq. cbn zeta.
  match goal with |- context [ParcelStore.Add ?q (dropClock w)] =>
    pose proof (Add_outside q (dropClock w)) as [Hc Ho];
    destruct (ParcelStore.Add q (dropClock w)) as [[id [e|]] w1] end;
    cbn [snd] in Hc, Ho; intros H; injection H as <- <- <-.
  - split; [exact Hc|]. split; [discriminate|]. intros _. exact Ho.
  - split; [exact Hc|]. split; [|intros H; now elim H].
    intros _. cbn [snd print stdout withNumber Number CreatedAt]. now rewrite Ho.
Qed.

Lemma Register_prints_once_witness :
  stdout (snd (ParcelService.Register 7 "Pskov" (emptyWorld [] [] [mkTime 2024 5 6 7 8 9])))
  = [NoticeRegistered 1 "Pskov" 7 "2024-05-06T07:08:09Z"].
Proof.
  destruct (Register_prints_once
              (emptyWorld [] [] [mkTime 2024 5 6 7 8 9])
              (snd (ParcelService.Register 7 "Pskov" (emptyWorld [] [] [mkTime 2024 5 6 7 8 9])))
              7 "Pskov" (mkParcel 1 7 "registered" "Pskov" "2024-05-06T07:08:09Z") None eq_refl)
    as (_ & H & _).
  exact (H eq_refl).
Defined.

Section Printing.

Implicit Types (w : World) (ps : list Parcel).

Lemma printParcels_eq ps w :
  ParcelService.printParcels ps w =
  (tt, mkWorld (table w) (faults w) (rowids w) (clock w) (stdout w ++ map parcelLine ps)).
Proof.
  revert w. induction ps as [|p ps IH]; intros w; cbn [ParcelService.printParcels map].
  - unfold ret. rewrite app_nil_r. now destruct w.
  - unfold bind, print. rewrite IH. cbn [table faults rowids clock stdout].
    rewrite <- app_assoc. reflexivity.
Qed.

End Printing.

(** X7. [PrintClientParcels] never changes the table.  When [GetByClient]
    succeeds it returns no error and prints the header of the client, one
    line for each stored parcel of the client in table order, and an empty
    line; when [GetByClient] fails it returns that error and prints
    nothing, not even the header. *)
Theorem PrintClientParcels_output (w w' : World) (client : Z) (err : option error) :
  ParcelService.PrintClientParcels client w = (err, w') ->
  table w' = table w /\
  (err = None ->
   stdout w' = stdout w ++ [NoticeClientHeader client]
               ++ map parcelLine (filter (fun r => Client r =? client) (table w))
               ++ [NoticeBlank]) /\
  (err <> None -> stdout w' = stdout w /\ exists code, err = Some (ErrStorage code)).
Proof.
  unfold ParcelService.PrintClientParcels, bind.
  destruct (ParcelStore.GetByClient client w) as [[ps e] w1] eqn:E.
  apply GetByClient_cases in E as (Ht & (_ & _ & Ho) & [[-> ->]|(code & -> & ->)]).
  - unfold bind, print. rewrite printParcels_eq. unfold ret.
    cbn [table faults rowids clock stdout].
    intros H. injection H as <- <-. cbn [table stdout].
    split; [exact Ht|]. split; [|intros H; now elim H].
    intros _. rewrite Ho, <- !app_assoc. reflexivity.
  - unfold ret. intros H. injection H as <- <-.
    split; [exact Ht|]. split; [discriminate|].
    intros _. split; [exact Ho|eauto].
Qed.

Lemma PrintClientParcels_output_witness :
  stdout (snd (ParcelService.PrintClientParcels 7
                 (mkWorld [mkParcel 1 7 "sent" "Pskov" "2024"; mkParcel 2 8 "sent" "Omsk" "2024"]
                          [] [] [] [])))
  = [NoticeClientHeader 7; NoticeParcel 1 "Pskov" 7 "2024" "sent"; NoticeBlank].
Proof.
  destruct (PrintClientParcels_output
              (mkWorld [mkParcel 1 7 "sent" "Pskov" "2024"; mkParcel 2 8 "sent" "Omsk" "2024"]
                       [] [] [] [])
              (snd (ParcelService.PrintClientParcels 7
                 (mkWorld [mkParcel 1 7 "sent" "Pskov" "2024"; mkParcel 2 8 "sent" "Omsk" "2024"]
                          [] [] [] [])))
              7 None eq_refl) as (_ & H & _).
  exact (H eq_refl).
Defined.

(** ** Errors of [NextStatus] *)

(** X8. [NextStatus] on a number under which nothing is stored returns
    [sql.ErrNoRows], writes nothing and prints nothing; a driver fault in the
    read is returned as it is, again with nothing printed; and whenever
    [NextStatus] returns an error the table is as it was. *)
Theorem NextStatus_errors (w : World) (n : Z) :
  (hd None (faults w) = None -> stored n w = None ->
   exists w', ParcelService.NextStatus n w = (Some ErrNoRows, w') /\
              table w' = table w /\ stdout w' = stdout w) /\
  (forall code, hd None (faults w) = Some code ->
   exists w', ParcelService.NextStatus n w = (Some (ErrStorage code), w') /\
              table w' = table w /\ stdout w' = stdout w) /\
  (forall e w', ParcelService.NextStatus n w = (Some e, w') -> table w' = table w).
Proof.
  rewrite NextStatus_eq. split; [|split].
  - intros Hq Hs. rewrite Hq, Hs. eauto.
  - intros code Hf. rewrite Hf. eauto.
  - intros e w'. destruct (hd None (faults w)).
    + intros H. now injection H as _ <-.
    + destruct (stored n w) as [r|].
      * destruct (ParcelService.switchStatus (Status r)) as [s|]; [|discriminate].
        rewrite SetStatus_eq. destruct (hd None _); [|discriminate].
        intros H. now injection H as _ <-.
      * intros H. now injection H as _ <-.
Qed.

Lemma NextStatus_errors_witness :
  exists w', ParcelService.NextStatus 4 (emptyWorld [] [] []) = (Some ErrNoRows, w') /\
             table w' = [] /\ stdout w' = [].
Proof.
  destruct (NextStatus_errors (emptyWorld [] [] []) 4) as (H & _).
  apply H; reflexivity.
Defined.

(** X9. [NextStatus] prints the notice of the new status before it writes
    it: when the read goes through and the write fails, [NextStatus] returns
    the error of the write, the stored status is unchanged, and the console
    nevertheless carries the notice of a status that was never stored. *)
Theorem NextStatus_notice_before_write (w : World) (n : Z) (r : Parcel) (code : Z) :
  stored n w = Some r ->
  hd None (faults w) = None -> hd None (tl (faults w)) = Some code ->
  (Status r = ParcelStatusRegistered ->
   exists w', ParcelService.NextStatus n w = (Some (ErrStorage code), w') /\
              table w' = table w /\
              stdout w' = stdout w ++ [NoticeNewStatus n ParcelStatusSent]) /\
  (Status r = ParcelStatusSent ->
   exists w', ParcelService.NextStatus n w = (Some (ErrStorage code), w') /\
              table w' = table w /\
              stdout w' = stdout w ++ [NoticeNewStatus n ParcelStatusDelivered]).
Proof.
  intros Hr Hf1 Hf2. rewrite NextStatus_eq, Hf1, Hr.
  split; intros Hst; rewrite Hst; cbn [ParcelService.switchStatus String.eqb];
    cbn; rewrite SetStatus_eq; cbn [faults]; rewrite Hf2; eauto.
Qed.

Lemma NextStatus_notice_before_write_witness :
  exists w',
    ParcelService.NextStatus 1
      (mkWorld [mkParcel 1 7 "registered" "Pskov" "2024"] [None; Some 10] [] [] [])
    = (Some (ErrStorage 10), w') /\
    table w' = [mkParcel 1 7 "registered" "Pskov" "2024"] /\
    stdout w' = [NoticeNewStatus 1 "sent"].
Proof.
  destruct (NextStatus_notice_before_write
              (mkWorld [mkParcel 1 7 "registered" "Pskov" "2024"] [None; Some 10] [] [] [])
              1 (mkParcel 1 7 "registered" "Pskov" "2024") 10 eq_refl eq_refl eq_refl)
    as (H & _).
  exact (H eq_refl).
Defined.

(** ** What the service never changes *)

Section Frozen.

Implicit Types (w : World) (t : list Parcel) (n m : Z) (r : Parcel) (o : op).

Lemma switchStatus_not_registered s s' :
  ParcelService.switchStatus s = inl s' -> s' <> ParcelStatusRegistered.
Proof.
  unfold ParcelService.switchStatus.
  destruct (String.eqb s ParcelStatusRegistered); [intros H; injection H as <-; discriminate|].
  destruct (String.eqb s ParcelStatusSent); [intros H; injection H as <-; discriminate|].
  destruct (String.eqb s ParcelStatusDelivered); [discriminate|].
  intros H; injection H as <-; discriminate.
Qed.

Lemma find_filter_keep n (f : Parcel -> bool) t r :
  find (fun x => Number x =? n) t = Some r -> f r = true ->
  find (fun x => Number x =? n) (filter f t) = Some r.
Proof.
  induction t as [|y t IH]; cbn; [discriminate|].
  destruct (Number y =? n) eqn:E.
  - intros H Hf. injection H as ->. rewrite Hf. cbn. now rewrite E.
  - intros H Hf. destruct (f y); cbn; [rewrite E|]; auto.
Qed.

Lemma tableStep_wellFormed t t' :
  ascending 0 t = true -> tableStep t t' -> ascending 0 t' = true.
Proof.
  intros Hasc Hstep. destruct Hstep as [|r Hst Hr Hfree|n r s Hr Hs|n a|n].
  - assumption.
  - apply ascending_insertRow; [assumption|lia|assumption].
  - now apply ascending_update.
  - now apply ascending_update.
  - now apply ascending_delete.
Qed.

Lemma run_wellFormed ops w : wellFormed w -> wellFormed (run ops w).
Proof.
  revert w. induction ops as [|o ops IH]; intros w Hwf; [exact Hwf|].
  cbn [run fold_left]. apply IH.
  apply tableStep_wellFormed with (t := table w); [exact Hwf|].
  now apply exec_tableStep.
Qed.

(** A row that has left [registered] survives a step with the same number,
    client, address and creation time, and does not return to
    [registered]. *)
Lemma tableStep_frozen t t' n r :
  tableStep t t' ->
  find (fun x => Number x =? n) t = Some r -> Status r <> ParcelStatusRegistered ->
  exists r', find (fun x => Number x =? n) t' = Some r' /\
             Status r' <> ParcelStatusRegistered /\
             Number r' = Number r /\ Client r' = Client r /\
             Address r' = Address r /\ CreatedAt r' = CreatedAt r.
Proof.
  intros Hstep Hr Hst.
  assert (Hguard : forall m, sql.holds (registeredNumber m) r = false).
  { intros m. rewrite holds_registeredNumber. apply String.eqb_neq in Hst.
    rewrite Hst. apply andb_false_r. }
  destruct Hstep as [|x Hx Hb Hfree|m r0 s Hr0 Hs|m a|m].
  - exists r. auto 10.
  - exists r. split; [|auto 10].
    rewrite find_insertRow_other; [exact Hr|].
    intros ->. apply find_number_none in Hfree. congruence.
  - rewrite find_update, Hr by reflexivity. cbn [option_map].
    destruct (sql.holds (sql.NumberEq m) r).
    + exists (sql.setStatus s r). split; [reflexivity|].
      split; [|auto 10]. cbn. now apply switchStatus_not_registered in Hs.
    + exists r. auto 10.
  - rewrite find_update, Hr by reflexivity. cbn [option_map].
    rewrite Hguard. exists r. auto 10.
  - exists r. split; [|auto 10]. unfold sql.delete.
    apply find_filter_keep; [exact Hr|]. now rewrite Hguard.
Qed.

(** The table after one operation of the service, operation by operation. *)
Lemma exec_table_cases o w :
  wellFormed w ->
  match o with
  | OpRegister c a =>
      table (exec o w) = table w \/
      exists r, sql.inUse (Number r) (table w) = false /\
                table (exec o w) = sql.insertRow r (table w)
  | OpNextStatus m =>
      table (exec o w) = table w \/
      exists s, table (exec o w) = sql.update (sql.setStatus s) (sql.NumberEq m) (table w)
  | OpChangeAddress m a =>
      table (exec o w) = table w \/
      table (exec o w) = sql.update (sql.setAddress a) (registeredNumber m) (table w)
  | OpDelete m =>
      table (exec o w) = table w \/
      table (exec o w) = sql.delete (registeredNumber m) (table w)
  end.
Proof.
  intros Hwf. destruct o as [c a|m|m a|m]; unfold exec.
  - rewrite Register_eq. cbn zeta.
    destruct (ParcelStore.Add _ (dropClock w)) as [[id err] w1] eqn:E.
    assert (H : table w1 = table w \/
                exists r, sql.inUse (Number r) (table w) = false /\
                          table w1 = sql.insertRow r (table w)).
    { apply Add_cases in E
        as [(code & _ & _ & Ht)|[(code & k & _ & _ & Hk & Hfree & Ht)
                                |(_ & Hk & Hfree & Ht)]];
        [now left| | |exact Hwf]; right; eexists; split; try exact Ht; exact Hfree. }
    destruct err; exact H.
  - rewrite NextStatus_eq.
    destruct (hd None (faults w)); [now left|].
    destruct (stored m w) as [r|]; [|now left].
    destruct (ParcelService.switchStatus (Status r)) as [s|]; [|now left].
    rewrite SetStatus_eq. destruct (hd None _); [now left|]. right. now exists s.
  - unfold ParcelService.ChangeAddress. rewrite SetAddress_eq.
    destruct (hd None (faults w)); [now left|now right].
  - unfold ParcelService.Delete. rewrite Delete_eq.
    destruct (hd None (faults w)); [now left|now right].
Qed.

End Frozen.

(** X10. Once a parcel has left the status [registered] it is frozen: over
    any sequence of [Register], [NextStatus], [ChangeAddress] and [Delete],
    whatever the driver does, it stays stored under its number with the same
    client, address and creation time, and its status never returns to
    [registered]. *)
Theorem frozen_after_advance (ops : list op) (w : World) (n : Z) (r : Parcel) :
  wellFormed w ->
  stored n w = Some r -> Status r <> ParcelStatusRegistered ->
  exists r',
    stored n (run ops w) = Some r' /\
    Status r' <> ParcelStatusRegistered /\
    Number r' = Number r /\ Client r' = Client r /\
    Address r' = Address r /\ CreatedAt r' = CreatedAt r.
Proof.
  revert w r. induction ops as [|o ops IH]; intros w r Hwf Hr Hst.
  - exists r. auto 10.
  - cbn [run fold_left].
    pose proof (exec_tableStep o w Hwf) as Hstep.
    destruct (tableStep_frozen _ _ n r Hstep Hr Hst)
      as (r1 & Hr1 & Hst1 & E1 & E2 & E3 & E4).
    destruct (IH (exec o w) r1) as (r' & Hr' & Hst' & F1 & F2 & F3 & F4);
      [apply (tableStep_wellFormed _ _ Hwf Hstep)|exact Hr1|exact Hst1|].
    exists r'. split; [exact Hr'|]. split; [exact Hst'|]. repeat split; congruence.
Qed.

Lemma frozen_after_advance_witness :
  exists r',
    stored 1 (run [OpChangeAddress 1 "Omsk"; OpDelete 1; OpRegister 7 "Tver"]
                  (mkWorld [mkParcel 1 7 "sent" "Pskov" "2024"] [] [] [] [])) = Some r' /\
    Status r' <> ParcelStatusRegistered /\
    Number r' = 1 /\ Client r' = 7 /\
    Address r' = "Pskov"%string /\ CreatedAt r' = "2024"%string.
Proof.
  apply (frozen_after_advance
           [OpChangeAddress 1 "Omsk"; OpDelete 1; OpRegister 7 "Tver"]
           (mkWorld [mkParcel 1 7 "sent" "Pskov" "2024"] [] [] [] [])
           1 (mkParcel 1 7 "sent" "Pskov" "2024")).
  - reflexivity.
  - reflexivity.
  - discriminate.
Defined.

(** X11. One operation of the service never changes the client or the
    creation time of a parcel that is stored before and after it, and it
    changes the address only when the operation is [ChangeAddress] on that
    number, the parcel is registered, and the new address is the one
    given. *)
Theorem one_step_fields (o : op) (w : World) (n : Z) (r r' : Parcel) :
  wellFormed w ->
  stored n w = Some r -> stored n (exec o w) = Some r' ->
  Number r' = Number r /\ Client r' = Client r /\ CreatedAt r' = CreatedAt r /\
  (Address r' = Address r \/
   exists a, o = OpChangeAddress n a /\ Status r = ParcelStatusRegistered /\
             Address r' = a).
Proof.
  intros Hwf Hr Hr'. unfold stored in Hr, Hr'.
  assert (Hsame : r' = r ->
            Number r' = Number r /\ Client r' = Client r /\ CreatedAt r' = CreatedAt r /\
            (Address r' = Address r \/
             exists a, o = OpChangeAddress n a /\ Status r = ParcelStatusRegistered /\
                       Address r' = a)) by (intros ->; auto 10).
  pose proof (exec_table_cases o w Hwf) as Hc.
  destruct o as [c a|m|m a|m].
  - destruct Hc as [Ht|(x & Hfree & Ht)]; rewrite Ht in Hr'; apply Hsame; [congruence|].
    rewrite find_insertRow_other in Hr'; [congruence|].
    intros ->. apply find_number_none in Hfree. congruence.
  - destruct Hc as [Ht|(s & Ht)]; rewrite Ht in Hr'; [apply Hsame; congruence|].
    rewrite find_update, Hr in Hr' by reflexivity. cbn [option_map] in Hr'.
    injection Hr' as <-.
    match goal with |- context [if ?b then _ else _] => destruct b end; cbn; auto 10.
  - destruct Hc as [Ht|Ht]; rewrite Ht in Hr'; [apply Hsame; congruence|].
    rewrite find_update, Hr in Hr' by reflexivity. cbn [option_map] in Hr'.
    injection Hr' as <-.
    match goal with |- context [if ?b then _ else _] => destruct b eqn:E end; [|auto 10].
    change (sql.holds (registeredNumber m) r = true) in E.
    rewrite holds_registeredNumber in E. apply andb_true_iff in E as [E1 E2].
    apply Z.eqb_eq in E1. apply String.eqb_eq in E2.
    apply find_number_some in Hr as [_ Hn].
    repeat split; try reflexivity. right. exists a. repeat split; [congruence|exact E2].
  - destruct Hc as [Ht|Ht]; rewrite Ht in Hr'; apply Hsame; [congruence|].
    apply find_number_some in Hr' as [Hin Hn].
    unfold sql.delete in Hin. apply filter_In in Hin as [Hin _].
    pose proof (ascending_find _ _ _ Hwf Hin) as Hf. rewrite Hn in Hf. congruence.
Qed.

Lemma one_step_fields_witness :
  Number (mkParcel 1 7 "registered" "Omsk" "2024") = 1 /\
  Client (mkParcel 1 7 "registered" "Omsk" "2024") = 7 /\
  CreatedAt (mkParcel 1 7 "registered" "Omsk" "2024") = "2024"%string /\
  (Address (mkParcel 1 7 "registered" "Omsk" "2024") = "Pskov"%string \/
   exists a, OpChangeAddress 1 "Omsk" = OpChangeAddress 1 a /\
             "registered"%string = ParcelStatusRegistered /\
             Address (mkParcel 1 7 "registered" "Omsk" "2024") = a).
Proof.
  apply (one_step_fields (OpChangeAddress 1 "Omsk")
           (mkWorld [mkParcel 1 7 "registered" "Pskov" "2024"] [] [] [] [])
           1 (mkParcel 1 7 "registered" "Pskov" "2024")
           (mkParcel 1 7 "registered" "Omsk" "2024")).
  - reflexivity.
  - reflexivity.
  - reflexivity.
Defined.

(** ** Operations in sequence *)

Section Sequences.

Implicit Types (w : World) (t : list Parcel) (n : Z) (r p : Parcel) (c : sql.where_).

(** What a successful [Add] leaves behind. *)
Lemma Add_success p w id w1 :
  wellFormed w -> ParcelStore.Add p w = ((id, None), w1) ->
  1 <= id <= sql.MAX_ROWID /\ sql.inUse id (table w) = false /\
  table w1 = sql.insertRow (withNumber p id) (table w) /\
  stored id w1 = Some (withNumber p id).
Proof.
  intros Hwf HAdd. apply Add_cases in HAdd
    as [(code & He & _)|[(code & k & He & _)|(_ & Hid & Hfree & Ht)]];
    [discriminate|discriminate| |assumption].
  repeat split; try assumption; try lia.
  unfold stored. rewrite Ht. change id with (Number (withNumber p id)) at 1.
  now apply find_insertRow_same.
Qed.

Lemma delete_insertRow c r t :
  sql.holds c r = true ->
  (forall x, In x t -> sql.holds c x = false) ->
  sql.delete c (sql.insertRow r t) = t.
Proof.
  intros Hr. unfold sql.delete. induction t as [|y t IH]; intros Ht; cbn.
  - now rewrite Hr.
  - destruct (Number r <? Number y); cbn.
    + rewrite Hr, (Ht y (or_introl eq_refl)). cbn. f_equal.
      apply (delete_id c). intros x Hx. apply Ht. now right.
    + rewrite (Ht y (or_introl eq_refl)). cbn. f_equal.
      apply IH. intros x Hx. apply Ht. now right.
Qed.

Lemma guard_free n t :
  sql.inUse n t = false ->
  forall x, In x t -> sql.holds (registeredNumber n) x = false.
Proof.
  intros Hfree x Hx. rewrite inUse_false_iff in Hfree. specialize (Hfree x Hx).
  rewrite holds_registeredNumber. apply Z.eqb_neq in Hfree. now rewrite Hfree.
Qed.

Lemma quiet_after_write k t w : quiet (S k) w -> quiet k (withTable t (dropFault w)).
Proof. intros H. now apply quiet_S in H as [_ H]. Qed.

End Sequences.

(** X12. A parcel added without error is found by its client: on a table
    that obeys its primary key, after [Add] has returned an identity,
    [GetByClient] for the parcel's client, with no driver fault, returns the
    parcels of that client that were stored before and the new parcel under
    its identity, and nothing else. *)
Theorem Add_GetByClient (w w1 : World) (p : Parcel) (id : Z) :
  wellFormed w ->
  ParcelStore.Add p w = ((id, None), w1) ->
  quiet (2 + List.length (filter (fun r => Client r =? Client p) (table w1))) w1 ->
  exists ps w2,
    ParcelStore.GetByClient (Client p) w1 = ((ps, None), w2) /\
    forall q, In q ps <-> q = withNumber p id \/ (In q (table w) /\ Client q = Client p).
Proof.
  intros Hwf HAdd Hq.
  destruct (Add_success _ _ _ _ Hwf HAdd) as (_ & _ & Ht & _).
  destruct (GetByClient_quiet (Client p) w1 Hq) as (w2 & H & _).
  eexists. exists w2. split; [exact H|].
  intros q. rewrite filter_In, Ht, In_insertRow, Z.eqb_eq. split.
  - intros [[->|Hin] Hc]; auto.
  - intros [->|[Hin Hc]]; auto.
Qed.

Lemma Add_GetByClient_witness :
  exists ps w2,
    ParcelStore.GetByClient 7
      (mkWorld [mkParcel 1 7 "sent" "Omsk" "2023"; mkParcel 2 7 "registered" "Pskov" "2024"]
               [] [] [] []) = ((ps, None), w2) /\
    forall q, In q ps <->
              q = mkParcel 2 7 "registered" "Pskov" "2024" \/
              (In q [mkParcel 1 7 "sent" "Omsk" "2023"] /\ Client q = 7).
Proof.
  apply (Add_GetByClient
           (mkWorld [mkParcel 1 7 "sent" "Omsk" "2023"] [] [] [] [])
           (mkWorld [mkParcel 1 7 "sent" "Omsk" "2023"; mkParcel 2 7 "registered" "Pskov" "2024"]
                    [] [] [] [])
           (mkParcel 0 7 "registered" "Pskov" "2024") 2).
  - reflexivity.
  - reflexivity.
  - constructor.
Defined.

(** X13. The address written by [SetAddress] is the address read back: on
    a table that obeys its primary key, after [Add] of a registered parcel,
    [SetAddress] of the returned identity and then [Get], with no driver
    fault, return the parcel with the new address and every other field as
    added. *)
Theorem Add_SetAddress_Get (w w1 : World) (p : Parcel) (id : Z) (a : string) :
  wellFormed w ->
  ParcelStore.Add p w = ((id, None), w1) ->
  Status p = ParcelStatusRegistered ->
  quiet 2 w1 ->
  exists w2 w3,
    ParcelStore.SetAddress id a w1 = (None, w2) /\
    ParcelStore.Get id w2
    = ((mkParcel id (Client p) (Status p) a (CreatedAt p), None), w3).
Proof.
  intros Hwf HAdd Hst Hq.
  destruct (Add_success _ _ _ _ Hwf HAdd) as (_ & _ & _ & Hs).
  pose proof Hq as Hq'. apply quiet_S in Hq' as [Hq1 Hq2]. apply quiet_S in Hq2 as [Hq2 _].
  rewrite SetAddress_eq, Hq1. eexists. eexists. split; [reflexivity|].
  rewrite Get_eq. cbn [faults withTable dropFault] in *. rewrite Hq2.
  unfold stored in *. cbn [table withTable].
  rewrite find_update, Hs by reflexivity. cbn [option_map].
  rewrite holds_registeredNumber. cbn [Number Status withNumber].
  rewrite Z.eqb_refl, Hst. cbn. unfold sql.setAddress, withNumber. cbn.
  now rewrite Hst.
Qed.

Lemma Add_SetAddress_Get_witness :
  exists w2 w3,
    ParcelStore.SetAddress 1 "new test address"
      (mkWorld [mkParcel 1 1000 "registered" "test" "2024"] [] [] [] []) = (None, w2) /\
    ParcelStore.Get 1 w2
    = ((mkParcel 1 1000 "registered" "new test address" "2024", None), w3).
Proof.
  apply (Add_SetAddress_Get (emptyWorld [] [] [])
           (mkWorld [mkParcel 1 1000 "registered" "test" "2024"] [] [] [] [])
           (mkParcel 0 1000 "registered" "test" "2024") 1 "new test address").
  - reflexivity.
  - reflexivity.
  - reflexivity.
  - constructor.
Defined.

(** X14. The status written by [SetStatus] is the status read back,
    whatever the status: on a table that obeys its primary key, after [Add],
    [SetStatus] of the returned identity and then [Get], with no driver
    fault, return the parcel with the new status and every other field as
    added. *)
Theorem Add_SetStatus_Get (w w1 : World) (p : Parcel) (id : Z) (s : string) :
  wellFormed w ->
  ParcelStore.Add p w = ((id, None), w1) ->
  quiet 2 w1 ->
  exists w2 w3,
    ParcelStore.SetStatus id s w1 = (None, w2) /\
    ParcelStore.Get id w2
    = ((mkParcel id (Client p) s (Address p) (CreatedAt p), None), w3).
Proof.
  intros Hwf HAdd Hq.
  destruct (Add_success _ _ _ _ Hwf HAdd) as (_ & _ & _ & Hs).
  pose proof Hq as Hq'. apply quiet_S in Hq' as [Hq1 Hq2]. apply quiet_S in Hq2 as [Hq2 _].
  rewrite SetStatus_eq, Hq1. eexists. eexists. split; [reflexivity|].
  rewrite Get_eq. cbn [faults withTable dropFault] in *. rewrite Hq2.
  unfold stored in *. cbn [table withTable].
  rewrite find_update, Hs by reflexivity. cbn [option_map sql.holds Number withNumber].
  rewrite Z.eqb_refl. reflexivity.
Qed.

Lemma Add_SetStatus_Get_witness :
  exists w2 w3,
    ParcelStore.SetStatus 1 "sent"
      (mkWorld [mkParcel 1 1000 "registered" "test" "2024"] [] [] [] []) = (None, w2) /\
    ParcelStore.Get 1 w2 = ((mkParcel 1 1000 "sent" "test" "2024", None), w3).
Proof.
  apply (Add_SetStatus_Get (emptyWorld [] [] [])
           (mkWorld [mkParcel 1 1000 "registered" "test" "2024"] [] [] [] [])
           (mkParcel 0 1000 "registered" "test" "2024") 1 "sent").
  - reflexivity.
  - reflexivity.
  - constructor.
Defined.

(** X15. [Delete] undoes the [Add] of a registered parcel: on a table that
    obeys its primary key, after [Add] of a registered parcel, [Delete] of
    the returned identity, with no driver fault, leaves the table exactly as
    it was before the [Add], and [Get] of the identity then fails with
    [sql.ErrNoRows]. *)
Theorem Add_Delete_Get (w w1 : World) (p : Parcel) (id : Z) :
  wellFormed w ->
  ParcelStore.Add p w = ((id, None), w1) ->
  Status p = ParcelStatusRegistered ->
  quiet 2 w1 ->
  exists w2 w3,
    ParcelStore.Delete id w1 = (None, w2) /\
    table w2 = table w /\
    ParcelStore.Get id w2 = ((zeroParcel, Some ErrNoRows), w3).
Proof.
  intros Hwf HAdd Hst Hq.
  destruct (Add_success _ _ _ _ Hwf HAdd) as (_ & Hfree & Ht & _).
  pose proof Hq as Hq'. apply quiet_S in Hq' as [Hq1 Hq2]. apply quiet_S in Hq2 as [Hq2 _].
  rewrite Delete_eq, Hq1. eexists. eexists. split; [reflexivity|].
  assert (Hback : sql.delete (registeredNumber id) (table w1) = table w).
  { rewrite Ht. apply delete_insertRow.
    - rewrite holds_registeredNumber. cbn [Number Status withNumber].
      now rewrite Z.eqb_refl, Hst.
    - now apply guard_free. }
  split; [exact Hback|].
  rewrite Get_eq. cbn [faults withTable dropFault] in *. rewrite Hq2.
  unfold stored. cbn [table withTable]. rewrite Hback.
  apply find_number_none in Hfree. now rewrite Hfree.
Qed.

Lemma Add_Delete_Get_witness :
  exists w2 w3,
    ParcelStore.Delete 1
      (mkWorld [mkParcel 1 1000 "registered" "test" "2024"] [] [] [] []) = (None, w2) /\
    table w2 = [] /\
    ParcelStore.Get 1 w2 = ((zeroParcel, Some ErrNoRows), w3).
Proof.
  apply (Add_Delete_Get (emptyWorld [] [] [])
           (mkWorld [mkParcel 1 1000 "registered" "test" "2024"] [] [] [] [])
           (mkParcel 0 1000 "registered" "test" "2024") 1).
  - reflexivity.
  - reflexivity.
  - reflexivity.
  - constructor.
Defined.

Section ChainRuns.

Implicit Types (w : World) (n : Z) (r : Parcel).

Lemma NextStatus_moves_quiet w n r s k :
  stored n w = Some r -> ParcelService.switchStatus (Status r) = inl s ->
  quiet (2 + k) w ->
  exists w',
    ParcelService.NextStatus n w = (None, w') /\
    stored n w' = Some (sql.setStatus s r) /\
    quiet k w' /\
    table w' = sql.update (sql.setStatus s) (sql.NumberEq n) (table w) /\
    stdout w' = stdout w ++ [NoticeNewStatus n s] /\
    clock w' = clock w.
Proof.
  intros Hr Hs Hq. apply quiet_S in Hq as [Hq1 Hq]. apply quiet_S in Hq as [Hq2 Hq].
  rewrite NextStatus_eq, Hq1, Hr, Hs, SetStatus_eq. cbn [snd print faults dropFault] in *.
  rewrite Hq2. eexists. split; [reflexivity|].
  split; [|split; [exact Hq|repeat split]].
  unfold stored in *. cbn [table withTable dropFault].
  rewrite find_update, Hr by reflexivity. cbn [option_map sql.holds].
  apply find_number_some in Hr as [_ Hr]. apply Z.eqb_eq in Hr. now rewrite Hr.
Qed.

End ChainRuns.

(** X16. Three calls of [NextStatus] take a registered parcel to the end
    of the chain: with no driver fault the first stores [sent] and the
    second [delivered], each printing its notice, and the third returns no
    error, leaves the table as it is and prints nothing. *)
Theorem NextStatus_three_times (w : World) (n : Z) (r : Parcel) :
  stored n w = Some r -> Status r = ParcelStatusRegistered -> quiet 5 w ->
  exists w1 w2 w3,
    ParcelService.NextStatus n w = (None, w1) /\
    ParcelService.NextStatus n w1 = (None, w2) /\
    ParcelService.NextStatus n w2 = (None, w3) /\
    stored n w1 = Some (sql.setStatus ParcelStatusSent r) /\
    stored n w2 = Some (sql.setStatus ParcelStatusDelivered r) /\
    table w3 = table w2 /\
    stdout w3 = stdout w ++ [NoticeNewStatus n ParcelStatusSent;
                             NoticeNewStatus n ParcelStatusDelivered].
Proof.
  intros Hr Hst Hq.
  destruct (NextStatus_moves_quiet w n r ParcelStatusSent 3 Hr)
    as (w1 & H1 & Hr1 & Hq1 & _ & Ho1 & _); [now rewrite Hst|exact Hq|].
  destruct (NextStatus_moves_quiet w1 n _ ParcelStatusDelivered 1 Hr1)
    as (w2 & H2 & Hr2 & Hq2 & _ & Ho2 & _); [reflexivity|exact Hq1|].
  apply quiet_S in Hq2 as [Hq2 _].
  assert (H3 : ParcelService.NextStatus n w2 = (None, dropFault w2))
    by (rewrite NextStatus_eq, Hq2, Hr2; reflexivity).
  exists w1, w2, (dropFault w2). split; [exact H1|]. split; [exact H2|].
  split; [exact H3|]. split; [exact Hr1|]. split; [exact Hr2|].
  split; [reflexivity|]. cbn [stdout dropFault].
  rewrite Ho2, Ho1, <- app_assoc. reflexivity.
Qed.

Lemma NextStatus_three_times_witness :
  exists w1 w2 w3,
    ParcelService.NextStatus 1 (mkWorld [mkParcel 1 7 "registered" "Pskov" "2024"] [] [] [] [])
    = (None, w1) /\
    ParcelService.NextStatus 1 w1 = (None, w2) /\
    ParcelService.NextStatus 1 w2 = (None, w3) /\
    stored 1 w1 = Some (mkParcel 1 7 "sent" "Pskov" "2024") /\
    stored 1 w2 = Some (mkParcel 1 7 "delivered" "Pskov" "2024") /\
    table w3 = table w2 /\
    stdout w3 = [NoticeNewStatus 1 "sent"; NoticeNewStatus 1 "delivered"].
Proof.
  apply (NextStatus_three_times
           (mkWorld [mkParcel 1 7 "registered" "Pskov" "2024"] [] [] [] [])
           1 (mkParcel 1 7 "registered" "Pskov" "2024")).
  - reflexivity.
  - reflexivity.
  - constructor.
Defined.

(** ** The demonstration, step by step *)

Section Demonstration.

Implicit Types (w : World) (t : list Parcel) (n c : Z) (r : Parcel).

Lemma nextFault_reliable w : reliable w -> nextFault w = (None, w).
Proof. unfold reliable, nextFault. now intros ->. Qed.

Lemma bind_eq {A B : Type} (m : M A) (k : A -> M B) w a w1 :
  m w = (a, w1) -> bind m k w = k a w1.
Proof. unfold bind. now intros ->. Qed.

Lemma orReturn_ok (m k : M (option error)) w w1 :
  m w = (None, w1) -> orReturn m k w = k w1.
Proof. unfold orReturn, bind. now intros ->. Qed.

Lemma evolves_trans w w1 w2 t1 t2 out1 out2 ck1 ck2 :
  evolves w w1 t1 out1 ck1 -> evolves w1 w2 t2 out2 ck2 ->
  evolves w w2 t2 (out1 ++ out2) ck2.
Proof.
  intros (_ & _ & Ho1 & _) (Hr & Ht & Ho2 & Hc).
  repeat split; try assumption. now rewrite Ho2, Ho1, app_assoc.
Qed.

Lemma Ping_reliable w : reliable w -> Ping w = (None, w).
Proof. intros H. unfold Ping, bind. now rewrite nextFault_reliable. Qed.

Lemma createTable_reliable w : reliable w -> createTableIfNotExists w = (None, w).
Proof. intros H. unfold createTableIfNotExists, bind. now rewrite nextFault_reliable. Qed.

Lemma nextRowid_above w :
  wellFormed w -> forall x, In x (table w) -> Number x < nextRowid (table w).
Proof.
  intros Hwf x Hx. unfold nextRowid.
  destruct (sql.lastRowid (table w)) as [n|] eqn:El.
  - destruct (ascending_lastRowid _ _ _ Hwf El) as [_ Hall]. specialize (Hall x Hx). lia.
  - apply lastRowid_none in El. rewrite El in Hx. contradiction.
Qed.

Lemma nextRowid_range w :
  wellFormed w -> sql.lastRowid (table w) <> Some sql.MAX_ROWID ->
  1 <= nextRowid (table w) <= sql.MAX_ROWID.
Proof.
  intros Hwf Hmax. unfold nextRowid.
  destruct (sql.lastRowid (table w)) as [n|] eqn:El.
  - destruct (ascending_lastRowid _ _ _ Hwf El) as [Hn _].
    assert (n <> sql.MAX_ROWID) by congruence. lia.
  - unfold sql.MAX_ROWID. lia.
Qed.

Lemma lastRowid_app t r : sql.lastRowid (t ++ [r]) = Some (Number r).
Proof.
  induction t as [|y t IH]; [reflexivity|].
  cbn [app sql.lastRowid]. destruct (t ++ [r]) eqn:E; [|exact IH].
  destruct t; discriminate.
Qed.

Lemma ascending_app t r :
  ascending 0 t = true -> (forall x, In x t -> Number x < Number r) ->
  1 <= Number r <= sql.MAX_ROWID -> ascending 0 (t ++ [r]) = true.
Proof.
  intros Hasc Hlt Hr. rewrite <- insertRow_append by assumption.
  apply ascending_insertRow; [assumption|lia|].
  apply inUse_false_iff. intros x Hx. specialize (Hlt x Hx). lia.
Qed.

Lemma update_app_last f (c : sql.where_) t r :
  (forall x, In x t -> sql.holds c x = false) -> sql.holds c r = true ->
  sql.update f c (t ++ [r]) = t ++ [f r].
Proof.
  intros Ht Hr. unfold sql.update. rewrite map_app. cbn [map]. rewrite Hr.
  f_equal. now apply (update_id f c).
Qed.

Lemma delete_app_last (c : sql.where_) t r :
  (forall x, In x t -> sql.holds c x = false) ->
  sql.delete c (t ++ [r]) = t ++ (if sql.holds c r then [] else [r]).
Proof.
  intros Ht. unfold sql.delete. rewrite filter_app. cbn [filter].
  f_equal; [now apply (delete_id c)|]. now destruct (sql.holds c r).
Qed.

Lemma number_free_holds n t (c : sql.where_) :
  (forall x, In x t -> Number x < n) ->
  forall x, In x t -> sql.holds (sql.And (sql.NumberEq n) c) x = false.
Proof.
  intros Hlt x Hx. specialize (Hlt x Hx). cbn.
  replace (Number x =? n) with false by (symmetry; apply Z.eqb_neq; lia). reflexivity.
Qed.

Lemma number_free_holds_eq n t :
  (forall x, In x t -> Number x < n) ->
  forall x, In x t -> sql.holds (sql.NumberEq n) x = false.
Proof.
  intros Hlt x Hx. specialize (Hlt x Hx). cbn. apply Z.eqb_neq. lia.
Qed.

(** *** Each operation under a driver that keeps working *)

Lemma Register_reliable c a w :
  wellFormed w -> reliable w -> sql.lastRowid (table w) <> Some sql.MAX_ROWID ->
  let p := mkParcel (nextRowid (table w)) c ParcelStatusRegistered a
                    (time.FormatRFC3339 (hd zeroTime (clock w))) in
  exists w',
    ParcelService.Register c a w = ((p, None), w') /\
    evolves w w' (table w ++ [p])
            [NoticeRegistered (Number p) a c (CreatedAt p)] (tl (clock w)).
Proof.
  intros Hwf Hrel Hmax p. rewrite Register_eq. cbn zeta.
  rewrite (Add_next _ (dropClock w)); [|exact Hwf|now apply reliable_quiet|exact Hmax].
  eexists. split; [reflexivity|].
  unfold evolves, reliable in *. cbn. rewrite Hrel. repeat split.
Qed.

Lemma ChangeAddress_reliable n a w :
  reliable w ->
  exists w',
    ParcelService.ChangeAddress n a w = (None, w') /\
    evolves w w' (sql.update (sql.setAddress a) (registeredNumber n) (table w)) [] (clock w).
Proof.
  intros Hrel. unfold ParcelService.ChangeAddress.
  rewrite SetAddress_eq, (reliable_hd _ Hrel). eexists. split; [reflexivity|].
  unfold evolves, reliable in *. cbn. rewrite Hrel, app_nil_r. repeat split.
Qed.

Lemma Delete_reliable n w :
  reliable w ->
  exists w',
    ParcelService.Delete n w = (None, w') /\
    evolves w w' (sql.delete (registeredNumber n) (table w)) [] (clock w).
Proof.
  intros Hrel. unfold ParcelService.Delete.
  rewrite Delete_eq, (reliable_hd _ Hrel). eexists. split; [reflexivity|].
  unfold evolves, reliable in *. cbn. rewrite Hrel, app_nil_r. repeat split.
Qed.

Lemma NextStatus_reliable n r s w :
  reliable w -> stored n w = Some r -> ParcelService.switchStatus (Status r) = inl s ->
  exists w',
    ParcelService.NextStatus n w = (None, w') /\
    evolves w w' (sql.update (sql.setStatus s) (sql.NumberEq n) (table w))
            [NoticeNewStatus n s] (clock w).
Proof.
  intros Hrel Hr Hs.
  rewrite NextStatus_eq, (reliable_hd _ Hrel), Hr, Hs, SetStatus_eq.
  unfold evolves, reliable in *. cbn. rewrite Hrel. cbn.
  eexists. split; [reflexivity|]. cbn. repeat split.
Qed.

Lemma scanRows_reliable rs acc w :
  reliable w ->
  ParcelStore.scanRows (map sql.project rs) acc w = ((acc ++ rs, None), w).
Proof.
  intros Hrel. revert acc. induction rs as [|r rs IH]; intros acc;
    cbn [map ParcelStore.scanRows]; unfold bind; rewrite (nextFault_reliable _ Hrel).
  - unfold ret. now rewrite app_nil_r.
  - cbn [sql.RowsScan sql.project]. rewrite IH, <- app_assoc. now destruct r.
Qed.

Lemma PrintClientParcels_reliable c w :
  reliable w ->
  exists w',
    ParcelService.PrintClientParcels c w = (None, w') /\
    evolves w w' (table w) (clientBlock c (table w)) (clock w).
Proof.
  intros Hrel.
  unfold ParcelService.PrintClientParcels, ParcelStore.GetByClient, sql.Query, bind.
  rewrite (nextFault_reliable _ Hrel).
  cbn [getTable ret sql.pending sql.holds].
  rewrite (scanRows_reliable _ _ _ Hrel). cbn [app].
  unfold print. rewrite printParcels_eq. unfold ret.
  eexists. split; [reflexivity|].
  unfold evolves, reliable, clientBlock in *. cbn. rewrite Hrel, <- !app_assoc.
  repeat split.
Qed.

End Demonstration.

(** X17. One run of [main] adds one parcel to the database.  On a table
    that obeys its primary key, with room for two more rowids and a driver
    that does not fail, [main] runs to its last line; the table is the one
    it found followed by one parcel of client 1, sent, with the second
    address and the first clock reading; the second parcel it registers is
    deleted again.  The console shows the first registration and the new
    status, the list of client 1 twice, unchanged by the refused deletion,
    then the second registration and the same list, the second parcel
    gone. *)
Theorem main_adds_one_sent_parcel (w : World) :
  wellFormed w -> reliable w ->
  (forall n, sql.lastRowid (table w) = Some n -> n + 2 <= sql.MAX_ROWID) ->
  let id := nextRowid (table w) in
  let t1 := time.FormatRFC3339 (hd zeroTime (clock w)) in
  let t2 := time.FormatRFC3339 (hd zeroTime (tl (clock w))) in
  let sent := mkParcel id 1 ParcelStatusSent demoNewAddress t1 in
  let block := clientBlock 1 (table w ++ [sent]) in
  exists w',
    main w = (None, w') /\
    table w' = table w ++ [sent] /\
    stdout w' = stdout w
                ++ [NoticeRegistered id demoAddress 1 t1;
                    NoticeNewStatus id ParcelStatusSent]
                ++ block ++ block
                ++ [NoticeRegistered (id + 1) demoAddress 1 t2]
                ++ block /\
    clock w' = tl (tl (clock w)).
Proof.
  intros Hwf Hrel Hroom id t1 t2 sent block.
  assert (Hmax : sql.lastRowid (table w) <> Some sql.MAX_ROWID).
  { intros E. specialize (Hroom _ E). lia. }
  pose proof (nextRowid_range w Hwf Hmax) as Hid. fold id in Hid.
  assert (Hid' : id + 1 <= sql.MAX_ROWID).
  { unfold id, nextRowid. destruct (sql.lastRowid (table w)) as [n|] eqn:E.
    - specialize (Hroom n eq_refl). lia.
    - unfold sql.MAX_ROWID. lia. }
  pose proof (nextRowid_above w Hwf) as Habove. fold id in Habove.
  unfold main.
  rewrite (orReturn_ok _ _ _ _ (Ping_reliable w Hrel)).
  rewrite (orReturn_ok _ _ _ _ (createTable_reliable w Hrel)). cbn zeta.
  (* the first registration *)
  destruct (Register_reliable 1 demoAddress w Hwf Hrel Hmax) as (w1 & H1 & R1 & T1 & O1 & C1).
  rewrite (bind_eq _ _ _ _ _ H1). cbn beta iota. cbn [Number CreatedAt] in *.
  fold id in H1, T1, O1 |- *. fold t1 in H1, T1, O1.
  (* the change of address *)
  destruct (ChangeAddress_reliable id demoNewAddress w1 R1) as (w2 & H2 & R2 & T2 & O2 & C2).
  rewrite (orReturn_ok _ _ _ _ H2).
  rewrite T1, update_app_last in T2;
    [|now apply number_free_holds|rewrite holds_registeredNumber; cbn; now rewrite Z.eqb_refl].
  (* the next status *)
  change (sql.setAddress demoNewAddress _)
    with (mkParcel id 1 ParcelStatusRegistered demoNewAddress t1) in T2.
  destruct (NextStatus_reliable id (mkParcel id 1 ParcelStatusRegistered demoNewAddress t1)
              ParcelStatusSent w2 R2) as (w3 & H3 & R3 & T3 & O3 & C3).
  { unfold stored. rewrite T2.
    match goal with |- find _ (_ ++ [?r]) = _ => change id with (Number r) at 1 end.
    apply (stored_append_new w). apply inUse_false_iff.
    intros x Hx. specialize (Habove x Hx). cbn. lia. }
  { reflexivity. }
  rewrite (orReturn_ok _ _ _ _ H3).
  rewrite T2, update_app_last in T3;
    [|now apply number_free_holds_eq|cbn; now rewrite Z.eqb_refl].
  change (sql.setStatus ParcelStatusSent _) with sent in T3.
  (* the first list *)
  destruct (PrintClientParcels_reliable 1 w3 R3) as (w4 & H4 & R4 & T4 & O4 & C4).
  rewrite (orReturn_ok _ _ _ _ H4). rewrite T3 in T4, O4. fold block in O4.
  (* the refused deletion *)
  destruct (Delete_reliable id w4 R4) as (w5 & H5 & R5 & T5 & O5 & C5).
  rewrite (orReturn_ok _ _ _ _ H5).
  rewrite T4, delete_app_last in T5; [|now apply number_free_holds].
  rewrite holds_registeredNumber in T5. cbn [Status sent] in T5.
  change (String.eqb ParcelStatusSent ParcelStatusRegistered) with false in T5.
  rewrite andb_false_r in T5.
  (* the second list *)
  destruct (PrintClientParcels_reliable 1 w5 R5) as (w6 & H6 & R6 & T6 & O6 & C6).
  rewrite (orReturn_ok _ _ _ _ H6). rewrite T5 in T6, O6. fold block in O6.
  (* the second registration *)
  assert (Habove' : forall x, In x (table w ++ [sent]) -> Number x < id + 1).
  { intros x Hx. apply in_app_iff in Hx as [Hx|[<-|[]]].
    - specialize (Habove x Hx). lia.
    - cbn. lia. }
  assert (Hwf6 : wellFormed w6).
  { unfold wellFormed. rewrite T6. apply ascending_app; [exact Hwf| |cbn; lia].
    intros x Hx. now apply Habove. }
  assert (Hmax6 : sql.lastRowid (table w6) <> Some sql.MAX_ROWID).
  { rewrite T6, lastRowid_app. cbn. intros E. injection E as E. lia. }
  destruct (Register_reliable 1 demoAddress w6 Hwf6 R6 Hmax6)
    as (w7 & H7 & R7 & T7 & O7 & C7).
  rewrite (bind_eq _ _ _ _ _ H7). cbn beta iota. cbn [Number CreatedAt] in *.
  assert (Hnext : nextRowid (table w6) = id + 1)
    by (unfold nextRowid; now rewrite T6, lastRowid_app).
  assert (Hclock : clock w6 = tl (clock w)) by congruence.
  rewrite ?Hnext, ?Hclock in H7, T7, O7. rewrite ?Hnext.
  fold t2 in H7, T7, O7. rewrite T6 in T7.
  (* its deletion *)
  destruct (Delete_reliable (id + 1) w7 R7) as (w8 & H8 & R8 & T8 & O8 & C8).
  rewrite (orReturn_ok _ _ _ _ H8).
  rewrite T7, delete_app_last in T8; [|now apply number_free_holds].
  rewrite holds_registeredNumber in T8. cbn [Number Status] in T8.
  rewrite Z.eqb_refl in T8. cbn in T8. rewrite app_nil_r in T8.
  (* the last list *)
  destruct (PrintClientParcels_reliable 1 w8 R8) as (w9 & H9 & R9 & T9 & O9 & C9).
  rewrite (orReturn_ok _ _ _ _ H9). rewrite T8 in T9, O9. fold block in O9.
  exists w9. split; [reflexivity|]. split; [exact T9|]. split.
  - rewrite O9, O8, O7, O6, O5, O4, O3, O2, O1.
    rewrite !app_nil_r, <- !app_assoc. reflexivity.
  - congruence.
Qed.

Lemma main_adds_one_sent_parcel_witness :
  exists w',
    main (emptyWorld [] [] [mkTime 2024 5 6 7 8 9; mkTime 2024 5 6 7 8 10]) = (None, w') /\
    table w' = [mkParcel 1 1 "sent" demoNewAddress "2024-05-06T07:08:09Z"].
Proof.
  destruct (main_adds_one_sent_parcel
              (emptyWorld [] [] [mkTime 2024 5 6 7 8 9; mkTime 2024 5 6 7 8 10]))
    as (w' & H & Ht & _).
  - reflexivity.
  - reflexivity.
  - intros n E. discriminate E.
  - exists w'. split; [exact H|exact Ht].
Defined.

(** ** What the demonstration never touches *)

Section Untouched.

Variable old : list Parcel.

Implicit Types (w : World) (n c : Z) (r : Parcel) (o : op).

Lemma preserves_ret {A : Type} (I : World -> Prop) (a : A) : preserves I (ret a).
Proof. intros w H. exact H. Qed.

Lemma preserves_orReturn (I : World -> Prop) (m k : M (option error)) :
  preserves I m -> preserves I k -> preserves I (orReturn m k).
Proof.
  intros Hm Hk w H. unfold orReturn, bind.
  specialize (Hm w H). destruct (m w) as [[e|] w1]; cbn [snd] in Hm.
  - exact Hm.
  - now apply Hk.
Qed.

Lemma keepsRows_dropFault w : keepsRows old w -> keepsRows old (dropFault w).
Proof. intros H. exact H. Qed.

Lemma preserves_Ping : preserves (keepsRows old) Ping.
Proof.
  intros w H. unfold Ping, bind. rewrite nextFault_eq.
  destruct (hd None (faults w)); exact H.
Qed.

Lemma preserves_createTable : preserves (keepsRows old) createTableIfNotExists.
Proof.
  intros w H. unfold createTableIfNotExists, bind. rewrite nextFault_eq.
  destruct (hd None (faults w)); exact H.
Qed.

Lemma PrintClientParcels_table c w :
  table (snd (ParcelService.PrintClientParcels c w)) = table w.
Proof.
  unfold ParcelService.PrintClientParcels, bind.
  destruct (ParcelStore.GetByClient c w) as [[ps e] w1] eqn:E.
  apply GetByClient_cases in E as (Ht & _ & [[-> ->]|(code & -> & ->)]).
  - unfold print. rewrite printParcels_eq. exact Ht.
  - exact Ht.
Qed.

Lemma preserves_Print c : preserves (keepsRows old) (ParcelService.PrintClientParcels c).
Proof.
  intros w [Hwf H]. unfold keepsRows, wellFormed.
  rewrite PrintClientParcels_table. now split.
Qed.

Lemma In_update_other f (cnd : sql.where_) (t : list Parcel) r :
  In r t -> sql.holds cnd r = false -> In r (sql.update f cnd t).
Proof.
  intros Hin Hc. unfold sql.update. apply in_map_iff. exists r. now rewrite Hc.
Qed.

Lemma In_delete_other (cnd : sql.where_) (t : list Parcel) r :
  In r t -> sql.holds cnd r = false -> In r (sql.delete cnd t).
Proof.
  intros Hin Hc. unfold sql.delete. apply filter_In. now rewrite Hc.
Qed.

(** An operation on a number that no row of [old] bears keeps [old]. *)
Lemma keepsRows_exec o n w :
  (o = OpNextStatus n \/ (exists a, o = OpChangeAddress n a) \/ o = OpDelete n) ->
  (forall r, In r old -> Number r <> n) ->
  keepsRows old w -> keepsRows old (exec o w).
Proof.
  intros Ho Hn [Hwf H].
  split; [apply (tableStep_wellFormed _ _ Hwf), exec_tableStep; exact Hwf|].
  intros r Hr. specialize (H r Hr). specialize (Hn r Hr).
  pose proof (exec_table_cases o w Hwf) as Hc.
  destruct Ho as [->|[[a ->]| ->]].
  - destruct Hc as [->|[s ->]]; [exact H|].
    apply In_update_other; [exact H|]. cbn. now apply Z.eqb_neq.
  - destruct Hc as [->| ->]; [exact H|].
    apply In_update_other; [exact H|]. rewrite holds_registeredNumber.
    apply Z.eqb_neq in Hn. now rewrite Hn.
  - destruct Hc as [->| ->]; [exact H|].
    apply In_delete_other; [exact H|]. rewrite holds_registeredNumber.
    apply Z.eqb_neq in Hn. now rewrite Hn.
Qed.

(** [Register] keeps every row, and the number it returns is new. *)
Lemma Register_keeps c a w p err w' :
  keepsRows old w ->
  ParcelService.Register c a w = ((p, err), w') ->
  keepsRows old w' /\ (err = None -> forall r, In r old -> Number r <> Number p).
Proof.
  intros [Hwf H]. rewrite Register_eq. cbn zeta.
  destruct (ParcelStore.Add _ (dropClock w)) as [[id e] w1] eqn:E.
  apply Add_cases in E
    as [(code & -> & _ & Ht)|[(code & k & -> & _ & Hk & Hfree & Ht)
                            |(-> & Hk & Hfree & Ht)]]; [| | |exact Hwf];
    intros HR; injection HR as <- <- <-.
  - split; [|discriminate]. split; [unfold wellFormed; now rewrite Ht|].
    intros r Hr. rewrite Ht. now apply H.
  - split; [|discriminate]. split.
    + unfold wellFormed.
      exact (wellFormed_insertRow w _ (withNumber _ k) Hwf Hk Hfree Ht).
    + intros r Hr. rewrite Ht. apply In_insertRow. right. now apply H.
  - split.
    + split.
      * unfold wellFormed. cbn [snd print table].
        exact (wellFormed_insertRow w _ (withNumber _ id) Hwf Hk Hfree Ht).
      * intros r Hr. cbn [snd print table]. rewrite Ht.
        apply In_insertRow. right. now apply H.
    + intros _ r Hr. cbn [Number withNumber].
      rewrite inUse_false_iff in Hfree. apply Hfree. now apply H.
Qed.

End Untouched.

(** X18. [main] never removes or changes a parcel it found in the
    database.  Whatever the driver does, and wherever [main] stops, every
    row of the table it started from is in the table it leaves, field for
    field, and the table still obeys its primary key: the only rows [main]
    updates or deletes are the ones it has just registered. *)
Theorem main_keeps_existing_parcels (w : World) :
  wellFormed w ->
  wellFormed (snd (main w)) /\
  forall r, In r (table w) -> In r (table (snd (main w))).
Proof.
  intros Hwf.
  assert (Hmain : preserves (keepsRows (table w)) main).
  { set (old := table w). unfold main.
    apply preserves_orReturn; [apply preserves_Ping|].
    apply preserves_orReturn; [apply preserves_createTable|].
    cbn zeta. intros w1 H1. unfold bind at 1.
    destruct (ParcelService.Register 1 demoAddress w1) as [[p err] w2] eqn:E1.
    destruct (Register_keeps old _ _ _ _ _ _ H1 E1) as [H2 Hnew].
    destruct err as [e|]; [exact H2|]. specialize (Hnew eq_refl).
    clear E1. cbv beta iota.
    apply (preserves_orReturn (keepsRows old)); [| |exact H2].
    { intros v Hv. apply (keepsRows_exec old (OpChangeAddress (Number p) demoNewAddress)
                             (Number p)); eauto. }
    apply preserves_orReturn.
    { intros v Hv. apply (keepsRows_exec old (OpNextStatus (Number p)) (Number p)); auto. }
    apply preserves_orReturn; [apply preserves_Print|].
    apply preserves_orReturn.
    { intros v Hv. apply (keepsRows_exec old (OpDelete (Number p)) (Number p)); auto. }
    apply preserves_orReturn; [apply preserves_Print|].
    intros w3 H3. unfold bind at 1.
    destruct (ParcelService.Register 1 demoAddress w3) as [[p' err'] w4] eqn:E2.
    destruct (Register_keeps old _ _ _ _ _ _ H3 E2) as [H4 Hnew'].
    destruct err' as [e|]; [exact H4|]. specialize (Hnew' eq_refl).
    clear E2. cbv beta iota.
    apply (preserves_orReturn (keepsRows old)); [| |exact H4].
    { intros v Hv. apply (keepsRows_exec old (OpDelete (Number p')) (Number p')); auto. }
    apply preserves_orReturn; [apply preserves_Print|].
    apply preserves_ret. }
  apply Hmain. split; [exact Hwf|auto].
Qed.

Lemma main_keeps_existing_parcels_witness :
  In (mkParcel 1 7 "registered" "Pskov" "2024")
     (table (snd (main (mkWorld [mkParcel 1 7 "registered" "Pskov" "2024"]
                                [None; None; None; None; Some 10] [] [] [])))).
Proof.
  destruct (main_keeps_existing_parcels
              (mkWorld [mkParcel 1 7 "registered" "Pskov" "2024"]
                       [None; None; None; None; Some 10] [] [] []) eq_refl) as [_ H].
  apply H. left. reflexivity.
Defined.

(** ** Numbers that are not stored *)

(** X21. [SetAddress] and [Delete] on a number under which nothing is
    stored return no error and leave the table as it was: a missing parcel
    is not reported, the statement just matches no row. *)
Theorem guarded_writes_missing_number (w : World) (n : Z) (a : string) :
  quiet 1 w -> stored n w = None ->
  (exists w', ParcelStore.SetAddress n a w = (None, w') /\ table w' = table w) /\
  (exists w', ParcelStore.Delete n w = (None, w') /\ table w' = table w).
Proof.
  intros Hq Hs. apply quiet_S in Hq as [Hq _].
  rewrite SetAddress_eq, Delete_eq, Hq. split; eexists; (split; [reflexivity|]);
    cbn [table withTable].
  - apply update_id. now apply guard_absent.
  - apply delete_id. now apply guard_absent.
Qed.

Lemma guarded_writes_missing_number_witness :
  exists w',
    ParcelStore.Delete 9 (mkWorld [mkParcel 1 7 "registered" "Pskov" "2024"] [] [] [] [])
    = (None, w') /\
    table w' = [mkParcel 1 7 "registered" "Pskov" "2024"].
Proof.
  destruct (guarded_writes_missing_number
              (mkWorld [mkParcel 1 7 "registered" "Pskov" "2024"] [] [] [] []) 9 "Omsk")
    as [_ H].
  - constructor.
  - reflexivity.
  - exact H.
Defined.
